(** * amq2api: account pool, token renewal and OpenAI stream re-encoding

    A shallow embedding of [account_manager.py], [auth.py] and the parts of
    [main.py] that switch accounts, renew tokens, re-encode the backend
    stream and merge tool results, with the properties of the design
    document stated against it.

    Conventions.  A Python [str] is a [string]; a list of objects that the
    code mutates in place is a [list] whose positions stand for the objects
    (an object reference is an index); a JSON value is a [json]; a raised
    exception is the [Raise] case of [result]. *)

From Stdlib Require Import String Ascii ZArith Lia DecimalString.
From stdpp Require Import base list strings.

(** ** Python values shared by the three modules *)

Module py.

(** The exceptions that the modelled code can raise. *)
Inductive exn :=
| AttributeError | KeyError | TypeError | ValueError
| JSONDecodeError | OSError
| HTTPStatusError (status : Z) | RequestError
| TokenRefreshError
| HTTPException (status_code : Z).

Inductive result (A : Type) :=
| Ok (a : A)
| Raise (e : exn).
Arguments Ok {A} a.
Arguments Raise {A} e.

Definition default_or {A} (o : option A) (d : A) : A :=
  match o with Some a => a | None => d end.

Definition bind {A B} (r : result A) (k : A → result B) : result B :=
  match r with Ok a => k a | Raise e => Raise e end.

(** Code that updates a state of type [S] and may raise: what was
    written before a [raise] stays written. *)
Definition M (S A : Type) : Type := S → S * result A.

Definition ret {S A} (a : A) : M S A := λ s, (s, Ok a).
Definition raise {S A} (e : exn) : M S A := λ s, (s, Raise e).
Definition lift {S A} (r : result A) : M S A := λ s, (s, r).
Definition modify {S} (f : S → S) : M S unit := λ s, (f s, Ok ()).
Definition gets {S A} (f : S → A) : M S A := λ s, (s, Ok (f s)).
Definition and_then {S A B} (m : M S A) (k : A → M S B) : M S B :=
  λ s, match m s with
       | (s', Ok a) => k a s'
       | (s', Raise e) => (s', Raise e)
       end.
#[global] Instance M_ret {S} : MRet (M S) := λ A, ret.
#[global] Instance M_bind {S} : MBind (M S) := λ A B k m, and_then m k.

(** [try: m  except Exception as e: handler e]. *)
Definition try_except {S A} (m : M S A) (handler : exn → M S A) : M S A :=
  λ s, match m s with
       | (s', Ok a) => (s', Ok a)
       | (s', Raise e) => handler e s'
       end.

(** [str(n)] for a natural number. *)
Definition str_of_nat (n : nat) : string :=
  NilZero.string_of_uint (Nat.to_uint n).

(** Truthiness of a [str]: [if s:] holds unless [s] is empty. *)
Definition str_truthy (s : string) : bool :=
  match s with EmptyString => false | _ => true end.

(** [list.remove(x)]: drops the first element equal to [x];
    [None] stands for the [ValueError] of an absent element. *)
Fixpoint list_remove {A} `{EqDecision A} (x : A) (l : list A)
  : option (list A) :=
  match l with
  | [] => None
  | y :: l' => if decide (y = x) then Some l'
               else (y ::.) <$> list_remove x l'
  end.

(** [s[:n]], [s[n:]] and [s[-n:]]. *)
Definition slice_to (n : nat) (s : string) : string :=
  String.substring 0 n s.
Definition slice_from (n : nat) (s : string) : string :=
  String.substring n (String.length s - n) s.
Definition slice_last (n : nat) (s : string) : string :=
  String.substring (String.length s - n) n s.

(** [s.startswith(p)]. *)
Definition startswith (p s : string) : bool := String.prefix p s.

(** The characters that [str.strip()] removes, among the code points
    below 256: the white space of ASCII, U+0085 and U+00A0.  The
    strings that are stripped are read as sequences of such code
    points, one character each. *)
Definition is_space (c : ascii) : bool :=
  let n := nat_of_ascii c in
  bool_decide (9 ≤ n ≤ 13) || bool_decide (28 ≤ n ≤ 32)
  || bool_decide (n = 133) || bool_decide (n = 160).

Fixpoint lstrip_chars (l : list ascii) : list ascii :=
  match l with
  | c :: l' => if is_space c then lstrip_chars l' else l
  | [] => []
  end.

(** [s.strip()]. *)
Definition strip (s : string) : string :=
  string_of_list_ascii
    (rev (lstrip_chars (rev (lstrip_chars (list_ascii_of_string s))))).

(** [s.split('\n')]: never empty, one more piece than line feeds. *)
Fixpoint split_lines (s : string) : list string :=
  match s with
  | EmptyString => [EmptyString]
  | String c s' =>
      if bool_decide (c = "010"%char) then EmptyString :: split_lines s'
      else match split_lines s' with
           | h :: t => String c h :: t
           | [] => [String c EmptyString]
           end
  end.

(** JSON values, as [json.loads] builds them and [json.dumps] prints
    them: [None], [bool], [int], [str], [list] and [dict] (an object
    keeps its members in order; a key is looked up from the front).
    Numbers with a fraction are not represented. *)
#[local] Unset Elimination Schemes.
Inductive json :=
| JNull
| JBool (b : bool)
| JNum (n : Z)
| JStr (s : string)
| JArr (items : list json)
| JObj (members : list (string * json)).
#[local] Set Elimination Schemes.

(** [if v:]. *)
Definition truthy (v : json) : bool :=
  match v with
  | JNull => false
  | JBool b => b
  | JNum n => negb (n =? 0)%Z
  | JStr s => str_truthy s
  | JArr items => bool_decide (items ≠ [])
  | JObj members => bool_decide (members ≠ [])
  end.

(** [d[k]] on the members of a dict. *)
Fixpoint lookup_key (k : string) (members : list (string * json))
  : option json :=
  match members with
  | [] => None
  | (k', v) :: rest => if String.eqb k' k then Some v else lookup_key k rest
  end.

(** [d[k] = v] for a key that [d] has. *)
Fixpoint store_key (k : string) (v : json) (members : list (string * json))
  : list (string * json) :=
  match members with
  | [] => []
  | (k', v') :: rest =>
      if String.eqb k' k then (k', v) :: rest
      else (k', v') :: store_key k v rest
  end.

(** [v.get(k, default)]: only a dict has the method. *)
Definition get (v : json) (k : string) (default : json) : result json :=
  match v with
  | JObj members => Ok (default_or (lookup_key k members) default)
  | _ => Raise AttributeError
  end.

(** [a == b] between values that can be hashed ([True == 1]). *)
Definition py_eq (a b : json) : bool :=
  match a, b with
  | JNull, JNull => true
  | JBool x, JBool y => bool_decide (x = y)
  | JNum x, JNum y => (x =? y)%Z
  | JBool x, JNum y | JNum y, JBool x => ((if x then 1 else 0) =? y)%Z
  | JStr x, JStr y => String.eqb x y
  | _, _ => false
  end.

(** [v[:n]]: a [str] and a list can be sliced; a number, a [bool]
    and [None] cannot be subscripted, and a dict does not take a slice
    as a key (an unhashable type, up to Python 3.11). *)
Definition slice (n : nat) (v : json) : result json :=
  match v with
  | JStr s => Ok (JStr (slice_to n s))
  | JArr items => Ok (JArr (take n items))
  | _ => Raise TypeError
  end.

(** [hash(v)] succeeds on everything but lists and dicts. *)
Definition hashable (v : json) : bool :=
  match v with JArr _ | JObj _ => false | _ => true end.

(** [obj.attr] where the class and the instance define the names [dir]. *)
Definition getattr (dir : list string) (attr : string) : result unit :=
  if bool_decide (attr ∈ dir) then Ok () else Raise AttributeError.

End py.

(** ** account_manager.py *)

Module account_manager.
Import py.

(** The [Account] dataclass (lines 18-32). *)
Record Account := mkAccount {
  id : string;
  refresh_token : string;
  client_id : string;
  client_secret : string;
  profile_arn : option string;
  name : option string;
  is_active : bool;
  created_at : string;
}.

#[global] Instance Account_eq_dec : EqDecision Account.
Proof. solve_decision. Defined.

(** [acc.is_active = b] on one object. *)
Definition set_is_active (b : bool) (acc : Account) : Account :=
  {| id := id acc; refresh_token := refresh_token acc;
     client_id := client_id acc; client_secret := client_secret acc;
     profile_arn := profile_arn acc; name := name acc;
     is_active := b; created_at := created_at acc |}.

(** What [account.json] holds: nothing, something [json.load] or
    the [Account] constructor rejects, or a list of records. *)
Inductive account_file :=
| Absent
| Unreadable
| Records (data : list Account).

(** An [AccountManager]: the in-memory list [self.accounts], together
    with the file [ACCOUNT_FILE] that [load_accounts] and
    [save_accounts] read and write. *)
Record AccountManager := mkManager {
  accounts : list Account;
  ACCOUNT_FILE : account_file;
}.

(** Lines 42-55. *)
Definition load_accounts (self : AccountManager) : AccountManager :=
  match ACCOUNT_FILE self with
  | Records data => mkManager data (ACCOUNT_FILE self)
  | Absent | Unreadable => mkManager [] (ACCOUNT_FILE self)
  end.

(** Lines 57-66, the file taken as writable; the write that can fail
    is in [account_manager_io]. *)
Definition save_accounts (self : AccountManager) : AccountManager :=
  mkManager (accounts self) (Records (accounts self)).

(** [AccountManager()] (lines 38-40) over a given file. *)
Definition new_manager (f : account_file) : AccountManager :=
  load_accounts (mkManager [] f).

(** Lines 68-85.  [asdict] gives a dict with the fields of the
    dataclass, so an entry of the listing is again an [Account] record,
    with the two redacted values in place of the stored ones. *)
Definition redact (acc : Account) : Account :=
  let token := refresh_token acc in
  let shown_token :=
    if str_truthy token then
      if bool_decide (14 < String.length token)
      then slice_to 10 token +:+ "..." +:+ slice_last 4 token
      else "***"
    else token in
  let shown_secret :=
    if str_truthy (client_secret acc) then "***" else client_secret acc in
  {| id := id acc; refresh_token := shown_token;
     client_id := client_id acc; client_secret := shown_secret;
     profile_arn := profile_arn acc; name := name acc;
     is_active := is_active acc; created_at := created_at acc |}.

Definition get_all_accounts (self : AccountManager)
  : AccountManager * list Account :=
  let self := load_accounts self in
  (self, redact <$> accounts self).

(** Lines 87-94: the store is re-read, and the first account with the
    id is returned, as its position and its value. *)
Definition get_account_by_id (account_id : string) (self : AccountManager)
  : AccountManager * option (nat * Account) :=
  let self := load_accounts self in
  (self, list_find (λ acc, id acc = account_id) (accounts self)).

(** Lines 96-106. *)
Definition get_active_account (self : AccountManager)
  : AccountManager * option (nat * Account) :=
  let self := load_accounts self in
  match list_find (λ acc, is_active acc = true) (accounts self) with
  | Some r => (self, Some r)
  | None => (self, (λ acc, (0, acc)) <$> head (accounts self))
  end.

(** Lines 108-140.  [uuid4] and [now] are what [uuid.uuid4()] and
    [datetime.now().isoformat()] return in this call. *)
Definition add_account (refresh_token client_id client_secret : string)
    (profile_arn name : option string) (uuid4 now : string)
    (self : AccountManager) : AccountManager * Account :=
  let is_active := bool_decide (length (accounts self) = 0) in
  let account :=
    {| id := uuid4; refresh_token := refresh_token;
       client_id := client_id; client_secret := client_secret;
       profile_arn := profile_arn;
       name := Some (match name with
                     | Some n => if str_truthy n then n
                                 else "账号 " +:+ str_of_nat (length (accounts self) + 1)
                     | None => "账号 " +:+ str_of_nat (length (accounts self) + 1)
                     end);
       is_active := is_active; created_at := now |} in
  (save_accounts (mkManager (accounts self ++ [account]) (ACCOUNT_FILE self)),
   account).

(** Lines 142-156. *)
Definition delete_account (account_id : string) (self : AccountManager)
  : AccountManager * bool :=
  let '(self, found) := get_account_by_id account_id self in
  match found with
  | None => (self, false)
  | Some (_, account) =>
      match list_remove account (accounts self) with
      | None => (self, false)
      | Some rest =>
          let rest :=
            if is_active account && bool_decide (rest ≠ [])
            then alter (set_is_active true) 0 rest else rest in
          (save_accounts (mkManager rest (ACCOUNT_FILE self)), true)
      end
  end.

(** Lines 158-173. *)
Definition activate_account (account_id : string) (self : AccountManager)
  : AccountManager * bool :=
  let '(self, found) := get_account_by_id account_id self in
  match found with
  | None => (self, false)
  | Some (i, _) =>
      let accs := set_is_active false <$> accounts self in
      let accs := alter (set_is_active true) i accs in
      (save_accounts (mkManager accs (ACCOUNT_FILE self)), true)
  end.

(** The names that an [Account] object has: the fields of the
    dataclass and its one method. *)
Definition Account_dir : list string :=
  ["id"; "refresh_token"; "client_id"; "client_secret"; "profile_arn";
   "name"; "is_active"; "created_at"; "to_dict"].

(** The names that an [AccountManager] object has: the attribute set by
    [__init__] and the methods of the class (lines 35-173). *)
Definition AccountManager_dir : list string :=
  ["accounts"; "load_accounts"; "save_accounts"; "get_all_accounts";
   "get_account_by_id"; "get_active_account"; "add_account";
   "delete_account"; "activate_account"].

(** The three mutating requests of the pool. *)
Inductive op :=
| Add (refresh_token client_id client_secret : string)
      (profile_arn name : option string) (uuid4 now : string)
| Delete (account_id : string)
| Activate (account_id : string).

Definition step (self : AccountManager) (o : op) : AccountManager :=
  match o with
  | Add rt ci cs pa nm u t => (add_account rt ci cs pa nm u t self).1
  | Delete i => (delete_account i self).1
  | Activate i => (activate_account i self).1
  end.

Definition run (ops : list op) (self : AccountManager) : AccountManager :=
  foldl step self ops.

(** How many accounts of a pool are flagged active. *)
Definition active_count (l : list Account) : nat :=
  length (filter (λ acc, is_active acc = true) l).

(** A non-empty pool has exactly one active account. *)
Definition pool_ok (l : list Account) : Prop :=
  l ≠ [] → active_count l = 1.

Definition file_records (f : account_file) : list Account :=
  match f with Records data => data | _ => [] end.

(** Both the list in memory and the list on file satisfy [pool_ok]. *)
Definition manager_ok (self : AccountManager) : Prop :=
  pool_ok (accounts self) ∧ pool_ok (file_records (ACCOUNT_FILE self)).

(** Exactly the account at position [i] is active. *)
Definition only_active (i : nat) (l : list Account) : Prop :=
  ∀ j acc, l !! j = Some acc → is_active acc = bool_decide (j = i).

End account_manager.

(** ** auth.py *)

Module auth.
Import py.

(** What [refresh_token] reads from the configuration object. *)
Record Config := mkConfig {
  refresh_token : string;
  client_id : string;
  client_secret : string;
  token_endpoint : string;
}.

(** The call [http_client.post(url, json=..., headers=...)]. *)
Record Request := mkRequest {
  method : string;
  url : string;
  json_body : json;
  headers : list (string * string);
}.

(** What the call comes back with: [httpx.RequestError], or a response
    with its status and what [response.json()] gives ([None]: the body
    is no JSON). *)
Inductive reply :=
| NoResponse
| Response (status_code : Z) (body : option json).

(** The keyword arguments of [update_global_config]. *)
Record config_update := mkUpdate {
  access_token : json;
  new_refresh_token : option json;
  expires_in : Z;
}.

(** Lines 36-59. *)
Definition build_request (config : Config) : Request :=
  {| method := "POST";
     url := token_endpoint config;
     json_body :=
       JObj [("grantType", JStr "refresh_token");
             ("refreshToken", JStr (refresh_token config));
             ("clientId", JStr (client_id config));
             ("clientSecret", JStr (client_secret config))];
     headers :=
       [("Content-Type", "application/json");
        ("User-Agent", "aws-sdk-rust/1.3.9 os/macos lang/rust/1.87.0");
        ("X-Amz-User-Agent",
         "aws-sdk-rust/1.3.9 ua/2.1 api/ssooidc/1.88.0 os/macos lang/rust/1.87.0 m/E app/AmazonQ-For-CLI");
        ("Amz-Sdk-Request", "attempt=1; max=3");
        ("Amz-Sdk-Invocation-Id", "362523fb-ad17-428a-b3be-5a812faf0448");
        ("Accept", "*/*");
        ("Accept-Encoding", "gzip, deflate, br")] |}.

(** The value of a header of a request. *)
Definition header (k : string) (r : Request) : option string :=
  snd <$> find (λ kv, String.eqb (fst kv) k) (headers r).

(** [response.raise_for_status()]: any status outside 200-299 raises. *)
Definition raise_for_status (status_code : Z) : result unit :=
  if bool_decide (200 ≤ status_code ≤ 299)%Z then Ok ()
  else Raise (HTTPStatusError status_code).

Section refresh.
(** [int(s)] for a [str]; [None] is its [ValueError]. *)
Variable int_of_str : string → option Z.

(** [int(v)] for a truthy JSON value. *)
Definition int (v : json) : result Z :=
  match v with
  | JNum n => Ok n
  | JBool b => Ok (if b then 1 else 0)%Z
  | JStr s => match int_of_str s with
              | Some n => Ok n
              | None => Raise ValueError
              end
  | _ => Raise TypeError
  end.

(** Lines 62-83: the body of the [try], from the reply on. *)
Definition parse_reply (r : reply) : result config_update :=
  match r with
  | NoResponse => Raise RequestError
  | Response status_code body =>
      bind (raise_for_status status_code) (λ _,
      match body with
      | None => Raise JSONDecodeError
      | Some response_data =>
          bind (get response_data "accessToken" JNull) (λ new_access_token,
          bind (get response_data "refreshToken" JNull) (λ new_refresh_token,
          bind (get response_data "expiresIn" JNull) (λ expires_in,
          if negb (truthy new_access_token) then Raise TokenRefreshError
          else
            bind (if truthy expires_in then int expires_in
                  else Ok 3600%Z) (λ lifetime,
            Ok {| access_token := new_access_token;
                  new_refresh_token :=
                    if truthy new_refresh_token
                    then Some new_refresh_token else None;
                  expires_in := lifetime |}))))
      end)
  end.

(** Lines 18-93.  [send] is the network: the reply to a request.
    Each [except] clause turns what was raised into
    [TokenRefreshError]; otherwise [update_global_config] is called
    with the returned arguments and the function returns [True]. *)
Definition refresh_token_call (config : Config) (send : Request → reply)
  : result config_update :=
  match parse_reply (send (build_request config)) with
  | Ok u => Ok u
  | Raise _ => Raise TokenRefreshError
  end.
End refresh.

End auth.

(** ** main.py *)

Module main.
Import py account_manager.

(** The condition of lines 358 and 720: one of the three secrets is
    missing. *)
Definition incomplete (account : Account) : bool :=
  negb (str_truthy (account_manager.refresh_token account))
  || negb (str_truthy (client_id account))
  || negb (str_truthy (client_secret account)).

(** [if old_active_id:] on an [Optional[str]]. *)
Definition id_truthy (old_active_id : option string) : bool :=
  match old_active_id with Some s => str_truthy s | None => false end.

(** [for acc in accounts: if acc.id == x: acc.is_active = True; break]. *)
Definition activate_first_with_id (x : string) (accs : list Account)
  : list Account :=
  match list_find (λ acc, id acc = x) accs with
  | Some (j, _) => alter (set_is_active true) j accs
  | None => accs
  end.

(** The list [manager.accounts], updated in place. *)
Definition on_accounts (f : list Account → list Account)
  : M AccountManager unit :=
  modify (λ manager, mkManager (f (accounts manager)) (ACCOUNT_FILE manager)).

(** [manager.get_account_by_id(account_id)] as a step. *)
Definition find_account (account_id : string)
  : M AccountManager (option (nat * Account)) :=
  λ manager, let '(m, r) := get_account_by_id account_id manager in (m, Ok r).

(** [manager.update_refresh_status(account_id, status)].  The class has
    no attribute of that name, so the lookup raises before anything is
    called, and what follows the lookup here is never reached. *)
Definition update_refresh_status {S} (account_id status : string)
  : M S unit :=
  lift (getattr AccountManager_dir "update_refresh_status").

(** A response reduced to the status code of its [JSONResponse]. *)
Definition status := Z.

Section renewal.
(** [await refresh_token()] of auth.py, run under the configuration
    that [reset_global_config] derives: whether it returns or raises
    when the account at a position of the given pool is the one
    switched to.  The configuration module is taken not to write
    [is_active]. *)
Variable refresh_token : nat → list Account → result bool.

(** Lines 366-425: the [try] block and its handler, for the account
    found at position [i]. *)
Definition refresh_found (account_id : string) (i : nat)
    (account : Account) : M AccountManager status :=
  old_active_id ← gets (λ manager,
      id <$> last (filter (λ acc, is_active acc = true)
                          (accounts manager)));
  on_accounts (fmap (λ acc, if is_active acc
                            then set_is_active false acc else acc));;
  on_accounts (alter (set_is_active true) i);;
  try_except
    (accs ← gets accounts;
     lift (refresh_token i accs);;
     update_refresh_status (id account) "success";;
     on_accounts (alter (set_is_active false) i);;
     (if id_truthy old_active_id
      then on_accounts
             (activate_first_with_id (default_or old_active_id ""))
      else if bool_decide (old_active_id = None)
           then on_accounts (alter (set_is_active true) i)
           else ret ());;
     refreshed_account ← find_account account_id;
     lift (getattr Account_dir "last_refresh_time");;
     lift (getattr Account_dir "last_refresh_status");;
     ret 200%Z)
    (λ e,
     update_refresh_status (id account) "failed";;
     on_accounts (alter (set_is_active false) i);;
     (if id_truthy old_active_id
      then on_accounts
             (activate_first_with_id (default_or old_active_id ""))
      else ret ());;
     raise e).

(** Lines 342-434: [POST /v2/accounts/{account_id}/refresh]. *)
Definition refresh_account_token (account_id : string)
    (manager : AccountManager) : AccountManager * status :=
  let '(manager, found) := get_account_by_id account_id manager in
  match found with
  | None => (manager, 404%Z)
  | Some (i, account) =>
      if incomplete account then (manager, 400%Z)
      else
        match refresh_found account_id i account manager with
        | (manager, Ok code) => (manager, code)
        | (manager, Raise (HTTPException code)) => (manager, code)
        | (manager, Raise _) => (manager, 500%Z)
        end
  end.

(** Lines 53-95 of the background loop: what it does with an account
    once it has read when the account was last refreshed. *)
Variable sweep_rest : nat → Account → M AccountManager unit.

(** Lines 48-99: the body of the background loop for the account at
    position [i].  It starts by reading [account.last_refresh_time],
    a name that an [Account] does not have; whatever is raised is
    logged and the loop goes on. *)
Definition sweep_account (i : nat) (account : Account)
  : M AccountManager unit :=
  try_except
    (lift (getattr Account_dir "last_refresh_time");;
     sweep_rest i account)
    (λ e, mret ()).

(** Lines 44-101: one pass over [manager.accounts]. *)
Fixpoint sweep_each (positions : list nat) : M AccountManager unit :=
  match positions with
  | [] => mret ()
  | i :: rest =>
      account ← gets (λ manager, accounts manager !! i);
      match account with
      | Some account => sweep_account i account;; sweep_each rest
      | None => mret ()
      end
  end.

Definition _background_token_refresh_pass (manager : AccountManager)
  : AccountManager * result unit :=
  sweep_each (seq 0 (length (accounts manager))) manager.

(** One line of the report of the bulk refresh. *)
Record outcome := mkOutcome {
  o_id : string;
  o_name : option string;
  o_status : string;
}.

(** The manager and the local variables of [refresh_all_accounts]. *)
Record bulk := mkBulk {
  manager : AccountManager;
  success_count : nat;
  failed_count : nat;
  results : list outcome;
}.

Definition on_pool (f : list Account → list Account) : M bulk unit :=
  modify (λ b, mkBulk (mkManager (f (accounts (manager b)))
                                 (ACCOUNT_FILE (manager b)))
                      (success_count b) (failed_count b) (results b)).

Definition count_success (account : Account) : M bulk unit :=
  modify (λ b, mkBulk (manager b) (success_count b + 1) (failed_count b)
                 (results b ++ [mkOutcome (id account) (name account) "success"])).

Definition count_failed (account : Account) (how : string) : M bulk unit :=
  modify (λ b, mkBulk (manager b) (success_count b) (failed_count b + 1)
                 (results b ++ [mkOutcome (id account) (name account) how])).

(** Lines 719-769: the body of the loop for the account at
    position [i]. *)
Definition refresh_one (i : nat) (account : Account) : M bulk unit :=
  try_except
    (if incomplete account then count_failed account "skipped"
     else
       on_pool (fmap (set_is_active false));;
       on_pool (alter (set_is_active true) i);;
       try_except
         (accs ← gets (λ b, accounts (manager b));
          lift (refresh_token i accs);;
          update_refresh_status (id account) "success";;
          count_success account)
         (λ e,
          update_refresh_status (id account) "failed";;
          count_failed account "failed"))
    (λ e, count_failed account "error").

(** The loop of line 718, over the positions of the list. *)
Fixpoint refresh_each (positions : list nat) : M bulk unit :=
  match positions with
  | [] => ret ()
  | i :: rest =>
      account ← gets (λ b, accounts (manager b) !! i);
      match account with
      | Some account => refresh_one i account ;; refresh_each rest
      | None => ret ()
      end
  end.

(** Lines 771-780. *)
Definition restore_active (old_active_id : option string)
    (accs : list Account) : list Account :=
  let accs := set_is_active false <$> accs in
  if id_truthy old_active_id
  then activate_first_with_id (default_or old_active_id "") accs
  else if bool_decide (accs ≠ [])
       then alter (set_is_active true) 0 accs
       else accs.

(** Lines 690-802: [POST /v2/accounts/refresh-all]. *)
Definition refresh_all_accounts (mgr : AccountManager) : bulk * status :=
  let accs := accounts mgr in
  if bool_decide (accs = []) then (mkBulk mgr 0 0 [], 400%Z)
  else
    let old_active_id :=
      (λ found, id (snd found))
        <$> list_find (λ acc, is_active acc = true) accs in
    match (refresh_each (seq 0 (length accs));;
           on_pool (restore_active old_active_id))
            (mkBulk mgr 0 0 []) with
    | (b, Ok _) => (b, 200%Z)
    | (b, Raise _) => (b, 500%Z)
    end.
End renewal.

(** *** The OpenAI-compatible endpoint *)

(** What the generator [openai_stream] yields: [Data obj] is the text
    [_openai_sse_format(obj)], [DONE] the literal of line 671. *)
Inductive sse :=
| Data (obj : json)
| DONE.

(** Lines 439-441 and 671, over a given [json.dumps]. *)
Definition _openai_sse_format (json_dumps : json → string) (obj : json)
  : string :=
  "data: " +:+ json_dumps obj +:+ String "010" (String "010" "").

Definition sse_text (json_dumps : json → string) (c : sse) : string :=
  match c with
  | Data obj => _openai_sse_format json_dumps obj
  | DONE => "data: [DONE]" +:+ String "010" (String "010" "")
  end.

(** Lines 444-467. *)
Definition _openai_non_streaming_response (text model uuid4 : string)
    (created : Z) : json :=
  JObj [("id", JStr ("chatcmpl-" +:+ uuid4));
        ("object", JStr "chat.completion");
        ("created", JNum created);
        ("model", JStr model);
        ("choices",
         JArr [JObj [("index", JNum 0);
                     ("message", JObj [("role", JStr "assistant");
                                       ("content", JStr text)]);
                     ("finish_reason", JStr "stop")]]);
        ("usage", JObj [("prompt_tokens", JNum 0);
                        ("completion_tokens", JNum 0);
                        ("total_tokens", JNum 0)])].

(** Lines 533-558: the branch for [stream=false], given the status of
    the backend response and the chunks of its body. *)
Definition chat_completions_unary (status_code : Z) (body : list string)
    (model uuid4 : string) (created : Z) : result json :=
  if bool_decide (status_code ≠ 200%Z)
  then Raise (HTTPException status_code)
  else
    let full_text :=
      foldl (λ full_text chunk,
               if str_truthy chunk then full_text else full_text)
            "" body in
    Ok (_openai_non_streaming_response full_text model uuid4 created).

(** The content of the message of a [chat.completion] object. *)
Definition message_content (response : json) : option json :=
  match response with
  | JObj members =>
      match lookup_key "choices" members with
      | Some (JArr (JObj choice :: _)) =>
          match lookup_key "message" choice with
          | Some (JObj message) => lookup_key "content" message
          | _ => None
          end
      | _ => None
      end
  | _ => None
  end.

Section stream.
(** [json.loads]; [None] is its [JSONDecodeError]. *)
Variable json_loads : string → option json.
(** The closure variables of [openai_stream]. *)
Variables (stream_id model : string) (created : Z).

Definition chunk (delta finish_reason : json) : sse :=
  Data (JObj [("id", JStr stream_id);
              ("object", JStr "chat.completion.chunk");
              ("created", JNum created);
              ("model", JStr model);
              ("choices",
               JArr [JObj [("index", JNum 0);
                           ("delta", delta);
                           ("finish_reason", finish_reason)]])]).

(** Lines 619-625, 635-645 and 651-661. *)
Definition role_chunk : sse :=
  chunk (JObj [("role", JStr "assistant")]) JNull.
Definition content_chunk (text : json) : sse :=
  chunk (JObj [("content", text)]) JNull.
Definition finish_chunk : sse :=
  chunk (JObj []) (JStr "stop").

(** Lines 597-605: the last [event: ] and [data: ] lines of a block. *)
Definition scan_lines (event_block : string)
  : option string * option string :=
  foldl (λ '(event_type_line, data_line) line,
           if startswith "event: " line
           then (Some (strip (slice_from 7 line)), data_line)
           else if startswith "data: " line
                then (event_type_line, Some (strip (slice_from 6 line)))
                else (event_type_line, data_line))
        (None, None) (split_lines event_block).

(** Lines 607-612: the event that a block decodes to, if any. *)
Definition decode (event_block : string) : option json :=
  match snd (scan_lines event_block) with
  | Some data_line =>
      if str_truthy data_line then json_loads data_line else None
  | None => None
  end.

(** The state of the generator: [role_sent] and what was yielded. *)
Record gen := mkGen {
  role_sent : bool;
  yielded : list sse;
}.

Definition yield (c : sse) : M gen unit :=
  modify (λ g, mkGen (role_sent g) (yielded g ++ [c])).

(** Lines 613-663: the [try] body for a decoded event.  Only
    [JSONDecodeError] is caught around it, so what [.get] raises, and
    what [text[:50]] in the log line 646 raises before the content
    chunk is yielded, ends the generator. *)
Definition on_event (event_data : json) : M gen unit :=
  event_type ← lift (get event_data "type" JNull);
  sent ← gets role_sent;
  (if negb sent
   then yield role_chunk;;
        modify (λ g, mkGen true (yielded g))
   else mret ());;
  if py_eq event_type (JStr "content_block_delta")
  then delta ← lift (get event_data "delta" (JObj []));
       text ← lift (get delta "text" (JStr ""));
       if truthy text
       then lift (slice 50 text);;
            yield (content_chunk text)
       else mret ()
  else if py_eq event_type (JStr "message_stop")
       then yield finish_chunk
       else mret ().

(** Lines 590-667: the loop over the blocks of the backend stream. *)
Fixpoint on_blocks (blocks : list string) : M gen unit :=
  match blocks with
  | [] => mret ()
  | event_block :: rest =>
      match decode event_block with
      | None => on_blocks rest
      | Some event_data => on_event event_data;; on_blocks rest
      end
  end.

(** Lines 585-671: what the generator yields, and the exception that
    ends it if one does. *)
Definition openai_stream (blocks : list string) : list sse * option exn :=
  match (on_blocks blocks;; yield DONE) (mkGen false []) with
  | (g, Ok _) => (yielded g, None)
  | (g, Raise e) => (yielded g, Some e)
  end.
End stream.

(** *** The tool results of the current message (lines 857-887) *)

(** What [target.extend(v)] appends: the items that iterating [v]
    gives. *)
Definition iterate (v : json) : result (list json) :=
  match v with
  | JArr items => Ok items
  | JStr s => Ok ((λ c, JStr (String c "")) <$> list_ascii_of_string s)
  | JObj members => Ok ((λ kv, JStr (fst kv)) <$> members)
  | _ => Raise TypeError
  end.

(** Line 875, on the dict [existing]:
    [existing["content"].extend(result.get("content", []))]. *)
Definition extend_content (existing result : json) : py.result json :=
  match existing with
  | JObj members =>
      match lookup_key "content" members with
      | None => Raise KeyError
      | Some (JArr items) =>
          bind (get result "content" (JArr [])) (λ more,
          bind (iterate more) (λ more,
          Ok (JObj (store_key "content" (JArr (items ++ more)) members))))
      | Some _ => Raise AttributeError
      end
  | _ => Raise TypeError
  end.

(** Lines 873-877: the first entry of [merged_tool_results] with the
    id takes the content. *)
Fixpoint merge_into (tool_use_id result : json) (merged : list json)
  : py.result (list json) :=
  match merged with
  | [] => Ok []
  | existing :: rest =>
      bind (get existing "toolUseId" JNull) (λ existing_id,
      if py_eq existing_id tool_use_id
      then bind (extend_content existing result) (λ e, Ok (e :: rest))
      else bind (merge_into tool_use_id result rest) (λ r,
           Ok (existing :: r)))
  end.

(** Lines 869-881: the loop, with [merged_tool_results] and
    [seen_tool_use_ids] as its state. *)
Fixpoint merge_loop (tool_results merged seen : list json)
  : py.result (list json) :=
  match tool_results with
  | [] => Ok merged
  | result :: rest =>
      bind (get result "toolUseId" JNull) (λ tool_use_id,
      if negb (hashable tool_use_id) then Raise TypeError
      else if existsb (py_eq tool_use_id) seen
           then bind (merge_into tool_use_id result merged) (λ merged,
                merge_loop rest merged seen)
           else merge_loop rest (merged ++ [result]) (seen ++ [tool_use_id]))
  end.

(** Lines 864-883: the value stored back under [toolResults]. *)
Definition merge_tool_results (tool_results : list json)
  : py.result (list json) :=
  if bool_decide (tool_results ≠ []) then merge_loop tool_results [] []
  else Ok tool_results.

End main.

(** ** Vocabulary of the properties *)

Module props.
Import py account_manager main.

(** [s] occurs in [t] as a run of consecutive characters. *)
Definition substr (s t : string) : Prop :=
  ∃ p q, t = p +:+ s +:+ q.

Definition has_dot (s : string) : Prop :=
  "."%char ∈ list_ascii_of_string s.

(** No entry of the listing shows, in its credential or in its secret,
    more than [window] consecutive characters of the stored value. *)
Definition reveals_at_most (window : nat) (self : AccountManager) : Prop :=
  ∀ j acc shown s,
    accounts (load_accounts self) !! j = Some acc →
    (get_all_accounts self).2 !! j = Some shown →
    (substr s (account_manager.refresh_token acc)
     ∧ substr s (account_manager.refresh_token shown))
    ∨ (substr s (client_secret acc) ∧ substr s (client_secret shown)) →
    String.length s ≤ window.

(** Every entry of the listing shows a credential of at most 14
    characters as the mask. *)
Definition masks_short_credentials (self : AccountManager) : Prop :=
  ∀ j acc shown,
    accounts (load_accounts self) !! j = Some acc →
    (get_all_accounts self).2 !! j = Some shown →
    String.length (account_manager.refresh_token acc) ≤ 14 →
    account_manager.refresh_token shown = "***".

(** The requests of an example: two accounts are added to the empty
    pool, the second is activated, then deleted. *)
Definition requests_example : list op :=
  [Add "r1" "c1" "s1" None None "u1" "t1";
   Add "r2" "c2" "s2" None (Some "second") "u2" "t2";
   Activate "u2"; Delete "u2"].

(** A pool whose one account has a credential with dots in it, and
    a pool whose one account has no credential. *)
Definition dotted_account : Account :=
  mkAccount "u1" "0123456789...abcd" "c1" "s1" None (Some "one") true "t1".
Definition dotted_pool : AccountManager :=
  mkManager [] (Records [dotted_account]).
Definition blank_account : Account :=
  mkAccount "u1" "" "c1" "" None (Some "one") true "t1".
Definition blank_pool : AccountManager :=
  mkManager [] (Records [blank_account]).

(** A pool whose one account has a credential of 26 letters. *)
Definition plain_account : Account :=
  mkAccount "u1" "abcdefghijklmnopqrstuvwxyz" "c1" "s1" None (Some "one")
    true "t1".
Definition plain_pool : AccountManager :=
  mkManager [] (Records [plain_account]).

(** A configuration, and four networks: one that is down, one that
    answers 403, one that answers 200 without a token, and one that
    answers 200 with a token, a rotated credential and a lifetime. *)
Definition config_example : auth.Config :=
  auth.mkConfig "old-credential" "client" "secret" "https://oidc.example/token".
Definition net_down : auth.Request → auth.reply :=
  λ _, auth.NoResponse.
Definition net_forbidden : auth.Request → auth.reply :=
  λ _, auth.Response 403 (Some (JObj [("error", JStr "invalid_grant")])).
Definition net_no_token : auth.Request → auth.reply :=
  λ _, auth.Response 200 (Some (JObj [("expiresIn", JNum 60)])).
Definition token_reply : list (string * json) :=
  [("accessToken", JStr "new-token");
   ("refreshToken", JStr "new-credential");
   ("expiresIn", JNum 28800)].
Definition net_token : auth.Request → auth.reply :=
  λ _, auth.Response 200 (Some (JObj token_reply)).
Definition no_int : string → option Z := λ _, None.
(** Four more networks that answer 200: with a body that is no JSON,
    with a token and the lifetime 0, with a token and a lifetime that is
    no number ([int] raises [ValueError] on it), and with a token that
    is empty. *)
Definition net_not_json : auth.Request → auth.reply :=
  λ _, auth.Response 200 None.
Definition net_zero_lifetime : auth.Request → auth.reply :=
  λ _, auth.Response 200
         (Some (JObj [("accessToken", JStr "new-token");
                      ("expiresIn", JNum 0)])).
Definition net_unreadable_lifetime : auth.Request → auth.reply :=
  λ _, auth.Response 200
         (Some (JObj [("accessToken", JStr "new-token");
                      ("expiresIn", JStr "soon")])).
Definition net_empty_token : auth.Request → auth.reply :=
  λ _, auth.Response 200
         (Some (JObj [("accessToken", JStr "");
                      ("expiresIn", JNum 60)])).

(** [wp m Q E s]: run from [s], the code [m] returns a value and a
    state that satisfy [Q], or raises in a state that satisfies [E]. *)
Definition wp {S A} (m : M S A) (Q : A → S → Prop) (E : exn → S → Prop)
    (s : S) : Prop :=
  match m s with
  | (s', Ok a) => Q a s'
  | (s', Raise e) => E e s'
  end.

(** The position of the account that the bulk refresh found active
    when it started: the first one flagged, the first of the pool if
    none is. *)
Definition active_position (accs : list Account) : nat :=
  default 0 (fst <$> list_find (λ acc, is_active acc = true) accs).

(** During a bulk refresh that starts from [mgr]: the file is as it
    was, the accounts are the same up to their flags, no success was
    counted, and the report has only skipped accounts and errors. *)
Definition bulk_inv (mgr : AccountManager) (b : bulk) : Prop :=
  ACCOUNT_FILE (manager b) = ACCOUNT_FILE mgr
  ∧ set_is_active false <$> accounts (manager b)
    = set_is_active false <$> accounts mgr
  ∧ success_count b = 0
  ∧ Forall (λ o, o_status o = "skipped" ∨ o_status o = "error")
           (results b).

(** The design's rule for an empty selection, read for the bulk
    refresh: if no
    account was active, the one account left active is one that the
    operation renewed, that is, one whose line of the report does not
    say [skipped]. *)
Definition leaves_renewed_active
    (refresh_token : nat → list Account → result bool)
    (mgr : AccountManager) : Prop :=
  let b := (refresh_all_accounts refresh_token mgr).1 in
  list_find (λ acc, is_active acc = true) (accounts mgr) = None →
  ∃ j acc o,
    accounts (manager b) !! j = Some acc ∧ is_active acc = true
    ∧ results b !! j = Some o ∧ o_id o = id acc
    ∧ o_status o ≠ "skipped".

(** Three accounts, the second without a client secret. *)
Definition account_a : Account :=
  mkAccount "a" "credential-a" "client-a" "secret-a" None (Some "A")
    false "t1".
Definition account_b : Account :=
  mkAccount "b" "credential-b" "client-b" "" None (Some "B") false "t2".
Definition account_c : Account :=
  mkAccount "c" "credential-c" "client-c" "secret-c" None (Some "C")
    false "t3".
Definition manager_of (accs : list Account) : AccountManager :=
  mkManager accs (Records accs).
(** A network on which every renewal succeeds. *)
Definition always_renewed : nat → list Account → result bool :=
  λ _ _, Ok true.

(** *** The stream *)

(** The delta and the finish reason of the first choice of a chunk. *)
Definition choice_field (k : string) (c : sse) : option json :=
  match c with
  | Data (JObj members) =>
      match lookup_key "choices" members with
      | Some (JArr (JObj choice :: _)) => lookup_key k choice
      | _ => None
      end
  | _ => None
  end.

(** A role-announcement chunk has a [role] in its delta. *)
Definition is_role (c : sse) : bool :=
  match choice_field "delta" c with
  | Some (JObj delta) => bool_decide (is_Some (lookup_key "role" delta))
  | _ => false
  end.

(** The text of a content chunk: the [content] of its delta. *)
Definition content_of (c : sse) : option json :=
  match choice_field "delta" c with
  | Some (JObj delta) => lookup_key "content" delta
  | _ => None
  end.

(** A finish chunk has the finish reason [stop]. *)
Definition is_finish (c : sse) : bool :=
  match choice_field "finish_reason" c with
  | Some (JStr reason) => String.eqb reason "stop"
  | _ => false
  end.

Definition is_done (c : sse) : bool :=
  match c with DONE => true | Data _ => false end.

Definition count (f : sse → bool) (out : list sse) : nat :=
  length (List.filter f out).

(** The type tag of a decoded event. *)
Definition has_type (tag : string) (ev : json) : bool :=
  match ev with
  | JObj members =>
      match lookup_key "type" members with
      | Some (JStr t) => String.eqb t tag
      | _ => false
      end
  | _ => false
  end.

(** The text of a [content_block_delta] event that carries some. *)
Definition delta_text (ev : json) : option json :=
  if has_type "content_block_delta" ev then
    match ev with
    | JObj members =>
        match lookup_key "delta" members with
        | Some (JObj delta) =>
            match lookup_key "text" delta with
            | Some text => if truthy text then Some text else None
            | None => None
            end
        | _ => None
        end
    | _ => None
    end
  else None.

(** A text that the stream can carry: nothing, or a string or a list,
    or a value that counts as false. *)
Definition stream_text (text : option json) : Prop :=
  match text with
  | None | Some (JStr _) | Some (JArr _) => True
  | Some v => truthy v = false
  end.

(** A decoded event is an object, and the [delta] of a
    [content_block_delta], if it has one, is an object whose [text],
    if it has one, is a [stream_text]. *)
Definition stream_event (ev : json) : Prop :=
  match ev with
  | JObj members =>
      if has_type "content_block_delta" ev then
        match lookup_key "delta" members with
        | None => True
        | Some (JObj delta) => stream_text (lookup_key "text" delta)
        | Some _ => False
        end
      else True
  | _ => False
  end.

(** What an event adds to the stream once the role is out: a content
    chunk for a delta with text, a finish chunk for the end of the
    message. *)
Definition chunks_of_event (stream_id model : string) (created : Z)
    (ev : json) : list sse :=
  match delta_text ev with
  | Some text => [content_chunk stream_id model created text]
  | None => if has_type "message_stop" ev
            then [finish_chunk stream_id model created] else []
  end.

(** The events that the blocks of a backend stream decode to. *)
Definition events (json_loads : string → option json)
    (blocks : list string) : list json :=
  omap (decode json_loads) blocks.

(** The role chunk that precedes what the events add, unless there is
    no event or the role is out already. *)
Definition role_prefix (stream_id model : string) (created : Z)
    (sent : bool) (evs : list json) : list sse :=
  if sent then []
  else match evs with
       | [] => []
       | _ :: _ => [role_chunk stream_id model created]
       end.

(** The events of the example: a text delta and the end of the
    message. *)
Definition delta_event (text : string) : json :=
  JObj [("type", JStr "content_block_delta");
        ("index", JNum 0);
        ("delta", JObj [("type", JStr "text_delta");
                        ("text", JStr text)])].
Definition stop_event : json :=
  JObj [("type", JStr "message_stop")].

(** Blocks of the backend stream as text, and a [json.loads] that
    knows their data lines. *)
Definition quoted (s : string) : string :=
  String (ascii_of_nat 34) s +:+ String (ascii_of_nat 34) "".
Definition delta_json (text : string) : string :=
  "{" +:+ quoted "type" +:+ ": " +:+ quoted "content_block_delta" +:+ ", "
  +:+ quoted "index" +:+ ": 0, " +:+ quoted "delta" +:+ ": {"
  +:+ quoted "type" +:+ ": " +:+ quoted "text_delta" +:+ ", "
  +:+ quoted "text" +:+ ": " +:+ quoted text +:+ "}}".
Definition stop_json : string :=
  "{" +:+ quoted "type" +:+ ": " +:+ quoted "message_stop" +:+ "}".
Definition block (event data : string) : string :=
  "event: " +:+ event +:+ String "010" ("data: " +:+ data
    +:+ String "010" (String "010" "")).
Definition loads_example (s : string) : option json :=
  if String.eqb s (delta_json "hi") then Some (delta_event "hi")
  else if String.eqb s (delta_json "!") then Some (delta_event "!")
  else if String.eqb s stop_json then Some stop_event
  else None.
Definition blocks_example : list string :=
  [block "content_block_delta" (delta_json "hi");
   block "content_block_delta" (delta_json "!");
   block "message_stop" stop_json].

(** *** Tool results *)

(** A tool-result record: a dict with an invocation id, a string, and
    a list of content entries. *)
Definition tool_result (r : json) : Prop :=
  match r with
  | JObj members =>
      match lookup_key "toolUseId" members,
            lookup_key "content" members with
      | Some (JStr _), Some (JArr _) => True
      | _, _ => False
      end
  | _ => False
  end.

Definition id_of (r : json) : string :=
  match r with
  | JObj members =>
      match lookup_key "toolUseId" members with
      | Some (JStr t) => t
      | _ => ""
      end
  | _ => ""
  end.

Definition entries (r : json) : list json :=
  match r with
  | JObj members =>
      match lookup_key "content" members with
      | Some (JArr items) => items
      | _ => []
      end
  | _ => []
  end.

(** The record [r] with [items] as its content. *)
Definition with_content (items : list json) (r : json) : json :=
  match r with
  | JObj members => JObj (store_key "content" (JArr items) members)
  | _ => r
  end.

(** The content entries of all records with the id [t], in order. *)
Definition entries_for (t : string) (rs : list json) : list json :=
  flat_map entries (filter (λ r, id_of r = t) rs).

(** The first record of each id, in order. *)
Fixpoint firsts (rs : list json) : list json :=
  match rs with
  | [] => []
  | r :: rs' => r :: filter (λ r', id_of r' ≠ id_of r) (firsts rs')
  end.

(** Grouping by invocation id, in the words of the design: the first
    record of each id is kept, and takes the content entries of all
    records of its id, in their order. *)
Definition grouped (rs : list json) : list json :=
  (λ r, with_content (entries_for (id_of r) rs) r) <$> firsts rs.

Definition record (t : string) (items : list json) : json :=
  JObj [("toolUseId", JStr t); ("content", JArr items);
        ("status", JStr "success")].

End props.

(** ** main.py: the account endpoints (lines 246-339) *)

Module main_api.
Import py account_manager main.

(** [AddAccountRequest] (lines 147-152). *)
Record AddAccountRequest := mkAddAccountRequest {
  refresh_token : string;
  client_id : string;
  client_secret : string;
  profile_arn : string;
  name : string;
}.

(** [x if x else None] on a [str]. *)
Definition or_none (s : string) : option string :=
  if str_truthy s then Some s else None.

(** Lines 263-289: [POST /api/accounts]; the answer carries the id and
    the name of the new account. *)
Definition add_account (req : AddAccountRequest) (uuid4 now : string)
    (manager : AccountManager)
  : AccountManager * (status * (string * option string)) :=
  let '(manager, account) :=
    account_manager.add_account (refresh_token req) (client_id req)
      (client_secret req) (or_none (profile_arn req)) (or_none (name req))
      uuid4 now manager in
  (manager, (200%Z, (id account, account_manager.name account))).

(** Lines 292-314: [DELETE /api/accounts/{account_id}]. *)
Definition delete_account (account_id : string) (manager : AccountManager)
  : AccountManager * status :=
  let '(manager, success) :=
    account_manager.delete_account account_id manager in
  (manager, if success then 200%Z else 404%Z).

(** Lines 317-339: [POST /api/accounts/{account_id}/activate]. *)
Definition activate_account (account_id : string)
    (manager : AccountManager) : AccountManager * status :=
  let '(manager, success) :=
    account_manager.activate_account account_id manager in
  (manager, if success then 200%Z else 404%Z).

End main_api.

(** ** main.py: the translation of incoming requests *)

Module requests.
Import py main.

(** [ChatMessage] and [ChatCompletionRequest] (lines 156-165). *)
Record ChatMessage := mkChatMessage {
  role : string;
  content : string;
}.

Record ChatCompletionRequest := mkChatCompletionRequest {
  model : option string;
  messages : list ChatMessage;
  stream : option bool;
  max_tokens : option Z;
  temperature : option json;
}.

(** The keyword arguments that [ClaudeMessage], [ClaudeTool] and
    [ClaudeRequest] are built from; the classes themselves are in the
    models module. *)
Record ClaudeMessage := mkClaudeMessage {
  m_role : json;
  m_content : json;
}.

Record ClaudeTool := mkClaudeTool {
  t_name : json;
  t_description : json;
  t_input_schema : json;
}.

Record ClaudeRequest := mkClaudeRequest {
  r_model : json;
  r_messages : list ClaudeMessage;
  r_max_tokens : json;
  r_temperature : json;
  r_tools : option (list ClaudeTool);
  r_stream : json;
  r_system : json;
}.

(** Lines 478-488: the loop over [req.messages], with [claude_messages]
    and [system_message] as its state. *)
Definition split_messages (msgs : list ChatMessage)
  : list ClaudeMessage * option string :=
  foldl (λ '(claude_messages, system_message) msg,
           if String.eqb (role msg) "system"
           then (claude_messages, Some (content msg))
           else (claude_messages
                   ++ [mkClaudeMessage (JStr (role msg))
                         (JStr (content msg))],
                 system_message))
        ([], None) msgs.

(** Lines 476-498: the Claude request of a chat-completions call. *)
Definition to_claude_request (req : ChatCompletionRequest)
  : ClaudeRequest :=
  let '(claude_messages, system_message) := split_messages (messages req) in
  {| r_model :=
       JStr (match model req with
             | Some m => if str_truthy m then m else "claude-sonnet-4.5"
             | None => "claude-sonnet-4.5"
             end);
     r_messages := claude_messages;
     r_max_tokens :=
       JNum (match max_tokens req with
             | Some n => if (n =? 0)%Z then 4096%Z else n
             | None => 4096%Z
             end);
     r_temperature := default_or (temperature req) JNull;
     r_stream := JBool (default_or (stream req) true);
     r_system := match system_message with
                 | Some s => JStr s
                 | None => JNull
                 end;
     r_tools := None |}.

(** [v[k]] for a key that is a [str]. *)
Definition subscript (v : json) (k : string) : result json :=
  match v with
  | JObj members =>
      match lookup_key k members with
      | Some x => Ok x
      | None => Raise KeyError
      end
  | _ => Raise TypeError
  end.

(** [[f(x) for x in xs]] where [f] may raise. *)
Fixpoint for_each {A B} (f : A → result B) (xs : list A)
  : result (list B) :=
  match xs with
  | [] => Ok []
  | x :: xs' =>
      bind (f x) (λ y, bind (for_each f xs') (λ ys, Ok (y :: ys)))
  end.

(** Lines 984-988 and 994-999. *)
Definition parse_message (msg : json) : result ClaudeMessage :=
  bind (subscript msg "role") (λ r,
  bind (subscript msg "content") (λ c,
  Ok (mkClaudeMessage r c))).

Definition parse_tool (tool : json) : result ClaudeTool :=
  bind (subscript tool "name") (λ n,
  bind (subscript tool "description") (λ d,
  bind (subscript tool "input_schema") (λ s,
  Ok (mkClaudeTool n d s)))).

(** Lines 970-1009. *)
Definition parse_claude_request (data : json) : result ClaudeRequest :=
  bind (get data "messages" (JArr [])) (λ listed,
  bind (iterate listed) (λ listed,
  bind (for_each parse_message listed) (λ messages,
  bind (match data with
        | JObj members =>
            match lookup_key "tools" members with
            | Some listed =>
                bind (iterate listed) (λ listed,
                bind (for_each parse_tool listed) (λ tools,
                Ok (Some tools)))
            | None => Ok None
            end
        | _ => Raise TypeError
        end) (λ tools,
  bind (get data "model" (JStr "claude-sonnet-4.5")) (λ model,
  bind (get data "max_tokens" (JNum 4096)) (λ max_tokens,
  bind (get data "temperature" JNull) (λ temperature,
  bind (get data "stream" (JBool true)) (λ stream,
  bind (get data "system" JNull) (λ system,
  Ok {| r_model := model; r_messages := messages;
        r_max_tokens := max_tokens; r_temperature := temperature;
        r_tools := tools; r_stream := stream;
        r_system := system |}))))))))).

End requests.

(** ** auth.py: the token of the active session (lines 96-132) *)

Module auth_session.
Import py.

Section session.
(** The configuration object of the config module, with the two
    things [ensure_valid_token] asks of it. *)
Variable Config : Type.
Variable is_token_expired : Config → bool.
Variable access_token : Config → option string.
(** [await refresh_token()], as a step on the global configuration. *)
Variable refresh_token : M Config bool.

Definition read_global_config : M Config Config := gets (λ c, c).

(** Lines 96-119. *)
Definition ensure_valid_token : M Config string :=
  config ← read_global_config;
  config ← (if is_token_expired config
            then refresh_token;; read_global_config
            else mret config);
  match access_token config with
  | Some token => if str_truthy token then mret token
                  else raise TokenRefreshError
  | None => raise TokenRefreshError
  end.

(** Lines 122-132. *)
Definition get_auth_headers : M Config (list (string * string)) :=
  access_token ← ensure_valid_token;
  mret [("Authorization", "Bearer " +:+ access_token)].
End session.

End auth_session.

(** ** account_manager.py, on a file whose write can fail *)

Module account_manager_io.
Import py account_manager.

(** Lines 57-66.  [fault] is [None] when [open] and [json.dump] go
    through; otherwise it is what the failed attempt leaves on file
    (the old content if [open] raised, a cut-off file if the dump
    did), and the exception is logged and raised again. *)
Definition save_accounts (fault : option account_file)
  : M AccountManager unit :=
  λ self,
    match fault with
    | None => (mkManager (accounts self) (Records (accounts self)), Ok ())
    | Some remains => (mkManager (accounts self) remains, Raise OSError)
    end.

(** Lines 108-140. *)
Definition add_account (refresh_token client_id client_secret : string)
    (profile_arn name : option string) (uuid4 now : string)
    (fault : option account_file) : M AccountManager Account :=
  n ← gets (λ self, length (accounts self));
  let account :=
    {| id := uuid4; refresh_token := refresh_token;
       client_id := client_id; client_secret := client_secret;
       profile_arn := profile_arn;
       name := Some (match name with
                     | Some nm => if str_truthy nm then nm
                                  else "账号 " +:+ str_of_nat (n + 1)
                     | None => "账号 " +:+ str_of_nat (n + 1)
                     end);
       is_active := bool_decide (n = 0); created_at := now |} in
  main.on_accounts (λ accs, accs ++ [account]);;
  save_accounts fault;;
  mret account.

(** Lines 142-156. *)
Definition delete_account (account_id : string)
    (fault : option account_file) : M AccountManager bool :=
  found ← main.find_account account_id;
  match found with
  | None => mret false
  | Some (_, account) =>
      rest ← gets (λ self, list_remove account (accounts self));
      match rest with
      | None => raise ValueError
      | Some rest =>
          main.on_accounts (λ _, rest);;
          (if is_active account && bool_decide (rest ≠ [])
           then main.on_accounts (alter (set_is_active true) 0)
           else mret ());;
          save_accounts fault;;
          mret true
      end
  end.

(** Lines 158-173. *)
Definition activate_account (account_id : string)
    (fault : option account_file) : M AccountManager bool :=
  found ← main.find_account account_id;
  match found with
  | None => mret false
  | Some (i, _) =>
      main.on_accounts (fmap (set_is_active false));;
      main.on_accounts (alter (set_is_active true) i);;
      save_accounts fault;;
      mret true
  end.

(** A request of the pool, with the fault of its write. *)
Definition step (fault : option account_file) (o : op)
  : M AccountManager unit :=
  match o with
  | Add rt ci cs pa nm u t => add_account rt ci cs pa nm u t fault;; mret ()
  | Delete i => delete_account i fault;; mret ()
  | Activate i => activate_account i fault;; mret ()
  end.

End account_manager_io.

(** ** Vocabulary of the further properties *)

Module props2.
Import py account_manager main props.

(** The list in memory is the list on file. *)
Definition in_step (self : AccountManager) : Prop :=
  accounts self = file_records (ACCOUNT_FILE self).

(** The line of the bulk report for an account. *)
Definition line_of (account : Account) : outcome :=
  mkOutcome (id account) (account_manager.name account)
    (if incomplete account then "skipped" else "error").

(** The generator run on decoded events. *)
Fixpoint on_events (stream_id model : string) (created : Z)
    (evs : list json) : M gen unit :=
  match evs with
  | [] => mret ()
  | ev :: rest =>
      on_event stream_id model created ev;;
      on_events stream_id model created rest
  end.

(** What is true of the generator at every point: a role chunk was
    yielded exactly if [role_sent] is set, and [DONE] was not
    yielded. *)
Definition gen_inv (g : gen) : Prop :=
  count is_role (yielded g) = (if role_sent g then 1 else 0)
  ∧ count is_done (yielded g) = 0.

(** A [json.loads] that also knows the text of a list. *)
Definition loads_with_list (s : string) : option json :=
  if String.eqb s "[1]" then Some (JArr [JNum 1]) else loads_example s.

(** A [content_block_delta] whose text is the number 5, and a
    [json.loads] that knows its data line. *)
Definition number_event : json :=
  JObj [("type", JStr "content_block_delta");
        ("delta", JObj [("text", JNum 5)])].
Definition number_json : string :=
  "{" +:+ quoted "type" +:+ ": " +:+ quoted "content_block_delta" +:+ ", "
  +:+ quoted "delta" +:+ ": {" +:+ quoted "text" +:+ ": 5}}".
Definition loads_with_number (s : string) : option json :=
  if String.eqb s number_json then Some number_event else loads_example s.

Definition no_line_feed (s : string) : Prop :=
  "010"%char ∉ list_ascii_of_string s.

(** A dict with a string under [toolUseId]. *)
Definition has_id (r : json) : Prop :=
  match r with
  | JObj members =>
      match lookup_key "toolUseId" members with
      | Some (JStr _) => True
      | _ => False
      end
  | _ => False
  end.

(** A message of a Claude request: a dict with a role and a content. *)
Definition message_of (msg : json) : option requests.ClaudeMessage :=
  match msg with
  | JObj members =>
      match lookup_key "role" members, lookup_key "content" members with
      | Some r, Some c => Some (requests.mkClaudeMessage r c)
      | _, _ => None
      end
  | _ => None
  end.

(** Whether a request reaches [save_accounts]: adding always does,
    deleting and activating do when an account on file has the id. *)
Definition writes (o : op) (self : AccountManager) : bool :=
  match o with
  | Add _ _ _ _ _ _ _ => true
  | Delete account_id | Activate account_id =>
      bool_decide
        (account_id ∈ id <$> file_records (ACCOUNT_FILE self))
  end.

(** [if config.access_token:] on an [Optional[str]]. *)
Definition token_truthy (access_token : option string) : bool :=
  match access_token with
  | Some token => str_truthy token
  | None => false
  end.

End props2.

(** * Properties *)

(** ** The account pool *)

Module account_manager_facts.
Import py account_manager props.

Implicit Types (l : list Account) (acc : Account) (i j : nat).

Lemma active_count_cons acc l :
  active_count (acc :: l)
  = (if is_active acc then 1 else 0) + active_count l.
Proof.
  unfold active_count. rewrite filter_cons.
  destruct (is_active acc); case_decide; simpl; congruence.
Qed.

Lemma active_count_app l1 l2 :
  active_count (l1 ++ l2) = active_count l1 + active_count l2.
Proof. unfold active_count. by rewrite filter_app, length_app. Qed.

Lemma active_count_fmap_false l :
  active_count (set_is_active false <$> l) = 0.
Proof.
  induction l as [|acc l IH]; [done|].
  rewrite fmap_cons, active_count_cons. simpl. exact IH.
Qed.

Lemma active_count_zero l acc :
  active_count l = 0 → acc ∈ l → is_active acc = false.
Proof.
  induction l as [|a l IH]; intros Hz Hin.
  - by apply elem_of_nil in Hin.
  - rewrite active_count_cons in Hz.
    apply elem_of_cons in Hin as [->|Hin].
    + destruct (is_active a); [lia|done].
    + apply IH; [lia|done].
Qed.

Lemma active_count_alter_true l i :
  active_count l = 0 → i < length l →
  active_count (alter (set_is_active true) i l) = 1.
Proof.
  revert i. induction l as [|a l IH]; intros i Hz Hi; simpl in Hi; [lia|].
  rewrite active_count_cons in Hz.
  destruct i as [|i].
  - change (alter (set_is_active true) 0 (a :: l))
      with (set_is_active true a :: l).
    rewrite active_count_cons. simpl. lia.
  - change (alter (set_is_active true) (S i) (a :: l))
      with (a :: alter (set_is_active true) i l).
    rewrite active_count_cons, IH; [|lia|lia]. destruct (is_active a); lia.
Qed.

Lemma only_active_alter_true l i :
  active_count l = 0 → only_active i (alter (set_is_active true) i l).
Proof.
  intros Hz j acc Hj. destruct (decide (j = i)) as [->|Hne].
  - rewrite list_lookup_alter_eq in Hj.
    destruct (l !! i); simplify_eq/=. by rewrite bool_decide_eq_true_2.
  - rewrite list_lookup_alter_ne in Hj by done.
    rewrite bool_decide_eq_false_2 by done.
    eapply active_count_zero; [done|]. by eapply list_elem_of_lookup_2.
Qed.

Lemma only_active_count l i :
  only_active i l → i < length l → active_count l = 1.
Proof.
  revert i. induction l as [|a l IH]; intros i Ho Hi; simpl in Hi; [lia|].
  rewrite active_count_cons.
  destruct i as [|i].
  - rewrite (Ho 0 a eq_refl). simpl.
    assert (active_count l = 0) as ->; [|done].
    clear -Ho. induction l as [|b l IH]; [done|].
    rewrite active_count_cons, (Ho 1 b eq_refl). simpl.
    apply IH. intros [|j] acc Hj; [apply (Ho 0 acc Hj)|].
    apply (Ho (S (S j)) acc Hj).
  - rewrite (Ho 0 a eq_refl). simpl. apply (IH i); [|lia].
    intros j acc Hj. rewrite (Ho (S j) acc Hj).
    apply bool_decide_ext. lia.
Qed.

Lemma active_count_delete l i acc :
  l !! i = Some acc →
  active_count l
  = active_count (delete i l) + (if is_active acc then 1 else 0).
Proof.
  revert i. induction l as [|a l IH]; intros [|i] Hi; simplify_eq/=.
  - rewrite active_count_cons. lia.
  - rewrite !active_count_cons, (IH i Hi). lia.
Qed.

(** [list.remove] takes out the very object that [get_account_by_id]
    returned. *)
Lemma list_remove_found account_id l i acc :
  list_find (λ a, id a = account_id) l = Some (i, acc) →
  list_remove acc l = Some (delete i l).
Proof.
  revert i. induction l as [|a l IH]; intros i Hf; [done|].
  cbn in Hf. case_decide as Ha.
  - simplify_eq/=. by rewrite decide_True.
  - destruct (list_find _ l) as [[i' acc']|] eqn:Hl; simplify_eq/=.
    apply list_find_Some in Hl as Hl'. destruct Hl' as (_ & Hid & _).
    rewrite decide_False by (intros ->; done).
    by rewrite (IH i' eq_refl).
Qed.

Lemma pool_ok_loaded self :
  manager_ok self → manager_ok (load_accounts self).
Proof.
  intros [_ Hf]. unfold load_accounts, manager_ok.
  destruct (ACCOUNT_FILE self); simpl in *; split; try done.
Qed.

Lemma manager_ok_saved l f :
  pool_ok l → manager_ok (save_accounts (mkManager l f)).
Proof. by split. Qed.

Lemma add_account_ok rt ci cs pa nm u t self :
  manager_ok self → manager_ok (add_account rt ci cs pa nm u t self).1.
Proof.
  intros [Hm _]. apply manager_ok_saved. intros _.
  rewrite active_count_app, active_count_cons. simpl.
  destruct (accounts self) as [|a l] eqn:E; [done|].
  rewrite bool_decide_eq_false_2 by done.
  rewrite Hm by done. done.
Qed.

Lemma activate_account_ok account_id self :
  manager_ok self → manager_ok (activate_account account_id self).1.
Proof.
  intros Hok%pool_ok_loaded. unfold activate_account, get_account_by_id.
  destruct (list_find _ _) as [[i acc]|] eqn:Hf; [|done].
  apply manager_ok_saved. intros _.
  apply active_count_alter_true; [apply active_count_fmap_false|].
  rewrite length_fmap. apply list_find_Some in Hf as (Hi & _).
  by eapply lookup_lt_Some.
Qed.

Lemma delete_account_ok account_id self :
  manager_ok self → manager_ok (delete_account account_id self).1.
Proof.
  intros Hok%pool_ok_loaded. unfold delete_account, get_account_by_id.
  destruct (list_find _ _) as [[i acc]|] eqn:Hf; [|done].
  rewrite (list_remove_found _ _ _ _ Hf).
  apply list_find_Some in Hf as (Hi & _).
  apply manager_ok_saved.
  destruct Hok as [Hm _].
  assert (accounts (load_accounts self) ≠ []) as Hne
    by (intros E; by rewrite E in Hi).
  specialize (Hm Hne).
  rewrite (active_count_delete _ _ _ Hi) in Hm.
  destruct (is_active acc); simpl.
  - case_bool_decide as Hr; [|by intros ?].
    intros _. apply active_count_alter_true; [lia|].
    destruct (delete i _); [done|simpl; lia].
  - intros _. lia.
Qed.

Lemma step_ok self o : manager_ok self → manager_ok (step self o).
Proof.
  intros Hok. destruct o; unfold step.
  - by apply add_account_ok.
  - by apply delete_account_ok.
  - by apply activate_account_ok.
Qed.

Lemma run_ok ops self : manager_ok self → manager_ok (run ops self).
Proof.
  revert self. induction ops as [|o ops IH]; intros self Hok; [done|].
  apply IH, step_ok, Hok.
Qed.

Lemma set_is_active_same acc b :
  is_active acc = b → set_is_active b acc = acc.
Proof. intros <-. by destruct acc. Qed.

Lemma activate_account_found account_id self i account :
  (get_account_by_id account_id self).2 = Some (i, account) →
  ∀ j, accounts (activate_account account_id self).1 !! j
       = set_is_active (bool_decide (j = i))
           <$> accounts (load_accounts self) !! j.
Proof.
  unfold activate_account, get_account_by_id. simpl. intros -> j. simpl.
  destruct (decide (j = i)) as [->|Hne].
  - rewrite list_lookup_alter_eq, list_lookup_fmap, bool_decide_eq_true_2
      by done.
    by destruct (_ !! i).
  - rewrite list_lookup_alter_ne, list_lookup_fmap, bool_decide_eq_false_2
      by done.
    done.
Qed.

Lemma delete_account_active account_id self i account :
  manager_ok self →
  (get_account_by_id account_id self).2 = Some (i, account) →
  is_active account = true →
  ∀ j, accounts (delete_account account_id self).1 !! j
       = set_is_active (bool_decide (j = 0))
           <$> delete i (accounts (load_accounts self)) !! j.
Proof.
  intros Hok%pool_ok_loaded. unfold delete_account, get_account_by_id.
  simpl. intros Hf Hact j. rewrite Hf, (list_remove_found _ _ _ _ Hf).
  apply list_find_Some in Hf as (Hi & _).
  destruct Hok as [Hm _].
  assert (accounts (load_accounts self) ≠ []) as Hne
    by (intros E; by rewrite E in Hi).
  specialize (Hm Hne).
  rewrite (active_count_delete _ _ _ Hi), Hact in Hm.
  rewrite Hact. simpl.
  set (rest := delete i (accounts (load_accounts self))) in *.
  assert (∀ k acc, rest !! k = Some acc → set_is_active false acc = acc)
    as Hrest.
  { intros k acc Hk. apply set_is_active_same.
    eapply active_count_zero; [|by eapply list_elem_of_lookup_2]. lia. }
  case_bool_decide as Hr; simpl.
  - destruct (decide (j = 0)) as [->|Hj].
    + by rewrite list_lookup_alter_eq.
    + rewrite list_lookup_alter_ne, bool_decide_eq_false_2 by done.
      destruct (rest !! j) as [acc|] eqn:Hk; [|done].
      simpl. by rewrite (Hrest j acc Hk).
  - assert (rest = []) as -> by (destruct rest; [done|by destruct Hr]).
    done.
Qed.

Lemma loaded_accounts self :
  accounts (load_accounts self) = file_records (ACCOUNT_FILE self).
Proof. unfold load_accounts. by destruct (ACCOUNT_FILE self). Qed.

Lemma found_on_file account_id self i account :
  list_find (λ a, id a = account_id) (file_records (ACCOUNT_FILE self))
  = Some (i, account) →
  (get_account_by_id account_id self).2 = Some (i, account).
Proof. unfold get_account_by_id. simpl. by rewrite loaded_accounts. Qed.

Lemma activate_account_true account_id self i account :
  (get_account_by_id account_id self).2 = Some (i, account) →
  (activate_account account_id self).2 = true.
Proof.
  unfold activate_account, get_account_by_id. simpl. by intros ->.
Qed.

Lemma delete_account_true account_id self i account :
  (get_account_by_id account_id self).2 = Some (i, account) →
  (delete_account account_id self).2 = true.
Proof.
  unfold delete_account, get_account_by_id. simpl. intros Hf.
  by rewrite Hf, (list_remove_found _ _ _ _ Hf).
Qed.

(** C1, as amended.  Whatever requests to add, delete and activate
    accounts are applied to a manager whose pool, in memory and on
    file, is empty or has exactly one active account (the empty pool
    that the service starts from is one), the pool that results, if not
    empty, has exactly one account with [is_active = true].  In
    particular, in the resulting state, for an id that an account on
    file has, at position [i] the first: activating it succeeds and
    gives the pool with the account at [i] active and every other
    account inactive, all else unchanged; and if that account is the
    active one, deleting it succeeds and gives the surviving accounts
    with the first of them, in insertion order, active and every other
    inactive. *)
Theorem one_active_after_any_requests (self : AccountManager)
    (ops : list op) :
  manager_ok self →
  let self' := run ops self in
  let pool := file_records (ACCOUNT_FILE self') in
  (accounts self' ≠ [] → active_count (accounts self') = 1)
  ∧ (pool ≠ [] → active_count pool = 1)
  ∧ ∀ account_id i account,
      list_find (λ a, id a = account_id) pool = Some (i, account) →
      (activate_account account_id self').2 = true
      ∧ (∀ j, accounts (activate_account account_id self').1 !! j
              = set_is_active (bool_decide (j = i)) <$> pool !! j)
      ∧ ACCOUNT_FILE (activate_account account_id self').1
        = Records (accounts (activate_account account_id self').1)
      ∧ (is_active account = true →
         (delete_account account_id self').2 = true
         ∧ (∀ j, accounts (delete_account account_id self').1 !! j
                 = set_is_active (bool_decide (j = 0))
                     <$> delete i pool !! j)
         ∧ ACCOUNT_FILE (delete_account account_id self').1
           = Records (accounts (delete_account account_id self').1)).
Proof.
  intros Hok self' pool. pose proof (run_ok ops self Hok) as Hok'.
  fold self' in Hok'. split; [apply Hok'|]. split; [apply Hok'|].
  intros account_id i account Hf%found_on_file.
  subst pool. rewrite <- loaded_accounts.
  split_and!.
  - by eapply activate_account_true.
  - by eapply activate_account_found.
  - unfold activate_account. unfold get_account_by_id in *.
    simpl in Hf. simpl. by rewrite Hf.
  - intros Hact. split_and!.
    + by eapply delete_account_true.
    + by eapply delete_account_active.
    + unfold delete_account. unfold get_account_by_id in *.
      simpl in Hf. simpl. rewrite Hf, (list_remove_found _ _ _ _ Hf).
      done.
Qed.

Lemma one_active_after_any_requests_witness :
  let self' := run (take 2 requests_example) (new_manager Absent) in
  active_count (accounts (run requests_example (new_manager Absent))) = 1
  ∧ is_active <$> accounts self' = [true; false]
  ∧ (activate_account "u2" self').2 = true
  ∧ is_active <$> accounts (activate_account "u2" self').1 !! 0
    = Some false
  ∧ is_active <$> accounts (activate_account "u2" self').1 !! 1
    = Some true
  ∧ (delete_account "u1" self').2 = true
  ∧ (λ a, (id a, is_active a))
      <$> accounts (delete_account "u1" self').1 !! 0
    = Some ("u2", true).
Proof.
  assert (manager_ok (new_manager Absent)) as Hok
    by (split; intros H; by destruct H).
  intros self'.
  destruct (one_active_after_any_requests (new_manager Absent)
              requests_example Hok) as [Hone _].
  destruct (one_active_after_any_requests (new_manager Absent)
              (take 2 requests_example) Hok) as (_ & _ & Hfound).
  fold self' in Hfound.
  destruct (Hfound "u2" 1
              (mkAccount "u2" "r2" "c2" "s2" None (Some "second") false
                 "t2") eq_refl)
    as (Hactivated & Hflags & _ & _).
  destruct (Hfound "u1" 0
              (mkAccount "u1" "r1" "c1" "s1" None (Some "账号 1") true
                 "t1") eq_refl)
    as (_ & _ & _ & Hdelete).
  destruct (Hdelete eq_refl) as (Hdeleted & Hrest & _).
  split_and!.
  - apply Hone. vm_compute. discriminate.
  - reflexivity.
  - exact Hactivated.
  - by rewrite (Hflags 0).
  - by rewrite (Hflags 1).
  - exact Hdeleted.
  - by rewrite (Hrest 0).
Defined.

(** The property as the design document has it, for every state of the
    pool, fails on a file that was written with no account flagged:
    adding an account to it leaves two accounts and none active. *)
Lemma add_does_not_repair_pool :
  let self' :=
    run [Add "r2" "c2" "s2" None None "u2" "t2"]
        (new_manager (Records [account_a])) in
  length (accounts self') = 2 ∧ active_count (accounts self') = 0.
Proof. by vm_compute. Qed.

End account_manager_facts.

(** ** The redacted listing *)

Module listing_facts.
Import py account_manager props.

#[local] Abbreviation chars := list_ascii_of_string.

Lemma chars_append a b : chars (a +:+ b) = chars a ++ chars b.
Proof. induction a as [|c a IH]; simpl; [done|by rewrite IH]. Qed.

Lemma chars_substring n m s :
  chars (String.substring n m s) = take m (drop n (chars s)).
Proof.
  revert n m.
  induction s as [|c s IH]; intros [|n] [|m]; simpl; rewrite ?IH; done.
Qed.

Lemma length_chars s : String.length s = length (chars s).
Proof. induction s as [|c s IH]; simpl; [done|by rewrite IH]. Qed.

Lemma chars_inj a b : chars a = chars b → a = b.
Proof.
  intros E. rewrite <- (string_of_list_ascii_of_string a),
    <- (string_of_list_ascii_of_string b). by rewrite E.
Qed.

Lemma str_truthy_false s : str_truthy s = false → s = "".
Proof. by destruct s. Qed.

Lemma str_truthy_true s : str_truthy s = true → 1 ≤ String.length s.
Proof. destruct s; [done|simpl; lia]. Qed.

Lemma substr_length s t : substr s t → String.length s ≤ String.length t.
Proof.
  intros (p & q & ->). rewrite !length_chars, !chars_append, !length_app.
  lia.
Qed.

(** A run of characters without [d] that occurs in [p ++ ddd ++ q]
    lies within [p] or within [q]. *)
Lemma run_beside_dots (d : ascii) (a s b p q : list ascii) :
  a ++ s ++ b = p ++ [d; d; d] ++ q → d ∉ s →
  length s ≤ length p ∨ length s ≤ length q.
Proof.
  intros E Hd.
  pose proof (f_equal length E) as El. rewrite !length_app in El.
  simpl in El.
  destruct (decide (length s = 0)); [left; lia|].
  destruct (decide (length a + length s ≤ length p)); [left; lia|].
  destruct (decide (length p + 3 ≤ length a)); [right; lia|].
  exfalso. apply Hd.
  set (k := length a `max` length p).
  assert ((p ++ [d; d; d] ++ q) !! k = Some d) as Hk.
  { rewrite lookup_app_r by lia. rewrite lookup_app_l by (simpl; lia).
    destruct (k - length p) as [|[|[|?]]] eqn:?; simpl; try done. lia. }
  rewrite <- E in Hk.
  rewrite lookup_app_r in Hk by lia.
  rewrite lookup_app_l in Hk by lia.
  by eapply list_elem_of_lookup_2.
Qed.

Lemma substr_chars s t :
  substr s t → ∃ a b, chars t = a ++ chars s ++ b.
Proof.
  intros (p & q & ->). exists (chars p), (chars q).
  by rewrite !chars_append.
Qed.

Lemma substr_no_dot s t : substr s t → ¬ has_dot t → ¬ has_dot s.
Proof.
  intros (a & b & E)%substr_chars Ht Hs. apply Ht. unfold has_dot in *.
  rewrite E, !elem_of_app. auto.
Qed.

(** What the listing shows of a credential of more than 14
    characters: its first ten, three dots, its last four. *)
Lemma long_credential_shown token :
  14 < String.length token →
  ∃ p m q, token = p +:+ m +:+ q
           ∧ String.length p = 10 ∧ String.length q = 4
           ∧ slice_to 10 token +:+ "..." +:+ slice_last 4 token
             = p +:+ "..." +:+ q.
Proof.
  intros Hlen. rewrite length_chars in Hlen.
  exists (slice_to 10 token),
    (String.substring 10 (String.length token - 14) token),
    (slice_last 4 token).
  unfold slice_to, slice_last. split_and!; [| | |done].
  - apply chars_inj. rewrite !chars_append, !chars_substring.
    rewrite !length_chars, drop_0.
    rewrite <- (take_drop 10 (chars token)) at 1. f_equal.
    rewrite <- (take_drop (length (chars token) - 14)
                  (drop 10 (chars token))) at 1.
    f_equal. rewrite drop_drop.
    rewrite take_ge by (rewrite length_drop; lia).
    f_equal. lia.
  - rewrite !length_chars, chars_substring, length_take, drop_0. lia.
  - rewrite !length_chars, chars_substring, length_take, length_drop. lia.
Qed.

Lemma redact_credential_bound acc s :
  ¬ has_dot (refresh_token acc) →
  substr s (refresh_token acc) →
  substr s (refresh_token (redact acc)) →
  String.length s ≤ 10.
Proof.
  intros Hdot Hs Hshown. unfold redact in Hshown. simpl in Hshown.
  destruct (str_truthy (refresh_token acc)) eqn:Ht.
  - case_bool_decide as Hlen.
    + destruct (long_credential_shown _ Hlen)
        as (p & m & q & _ & Hp & Hq & Hsh).
      rewrite Hsh in Hshown.
      apply substr_chars in Hshown as (a & b & E).
      rewrite !chars_append in E. symmetry in E.
      apply (run_beside_dots "."%char) in E.
      * rewrite !length_chars in *. lia.
      * by eapply substr_no_dot.
    + apply substr_length in Hshown. simpl in Hshown. lia.
  - apply substr_length in Hshown.
    apply str_truthy_false in Ht. rewrite Ht in Hshown. simpl in *. lia.
Qed.

Lemma redact_secret_bound acc s :
  substr s (client_secret (redact acc)) → String.length s ≤ 3.
Proof.
  intros Hs%substr_length. unfold redact in Hs. simpl in Hs.
  destruct (str_truthy (client_secret acc)) eqn:Ht; simpl in Hs; [done|].
  apply str_truthy_false in Ht. rewrite Ht in Hs. simpl in Hs. lia.
Qed.

(** C7, amended.  Every entry of the redacted listing stands for the
    account at its position.  A credential of more than 14 characters
    is shown as its first 10 characters, ['...'] and its last 4; a
    non-empty credential of at most 14 characters is shown as ['***'];
    a non-empty client secret is shown as ['***']; an empty credential
    or secret is shown empty.  No run of more than 10 characters of a
    credential without ['.'] occurs in the credential shown, and the
    secret shown has no more than 3 characters. *)
Theorem listing_redacts_secrets (self : AccountManager) (j : nat)
    (acc : Account) :
  accounts (load_accounts self) !! j = Some acc →
  length (get_all_accounts self).2 = length (accounts (load_accounts self))
  ∧ ∃ shown,
      (get_all_accounts self).2 !! j = Some shown
      ∧ (14 < String.length (refresh_token acc) →
         ∃ p m q, refresh_token acc = p +:+ m +:+ q
                  ∧ String.length p = 10 ∧ String.length q = 4
                  ∧ refresh_token shown = p +:+ "..." +:+ q)
      ∧ (1 ≤ String.length (refresh_token acc) ≤ 14 →
         refresh_token shown = "***")
      ∧ (refresh_token acc = "" → refresh_token shown = "")
      ∧ (client_secret acc ≠ "" → client_secret shown = "***")
      ∧ (client_secret acc = "" → client_secret shown = "")
      ∧ (¬ has_dot (refresh_token acc) →
         ∀ s, substr s (refresh_token acc) →
              substr s (refresh_token shown) → String.length s ≤ 10)
      ∧ (∀ s, substr s (client_secret shown) → String.length s ≤ 3).
Proof.
  intros Hj. unfold get_all_accounts. simpl. split; [apply length_fmap|].
  exists (redact acc). rewrite list_lookup_fmap, Hj. split; [done|].
  split_and!.
  - intros Hlen. destruct (long_credential_shown _ Hlen)
      as (p & m & q & E & Hp & Hq & Hsh).
    exists p, m, q. split_and!; try done.
    unfold redact. simpl. rewrite bool_decide_eq_true_2 by done.
    destruct (refresh_token acc); [simpl in Hlen; lia|done].
  - intros [Hlo Hhi]. unfold redact. simpl.
    rewrite bool_decide_eq_false_2 by lia.
    destruct (refresh_token acc); [simpl in Hlo; lia|done].
  - intros E. unfold redact. simpl. by rewrite E.
  - intros Hne. unfold redact. simpl.
    by destruct (client_secret acc).
  - intros E. unfold redact. simpl. by rewrite E.
  - intros Hdot s. by apply redact_credential_bound.
  - intros s. by apply redact_secret_bound.
Qed.

Lemma listing_redacts_secrets_witness :
  length (get_all_accounts plain_pool).2 = 1.
Proof.
  exact (proj1 (listing_redacts_secrets plain_pool 0 plain_account
                  eq_refl)).
Defined.

(** C7 as stated fails.  The listing of a pool whose credential is
    [0123456789...abcd] shows all 17 characters of it, and the listing
    of a pool whose account has no credential shows no mask for it. *)
Lemma listing_shows_whole_credential :
  ¬ reveals_at_most 14 dotted_pool ∧ ¬ masks_short_credentials blank_pool.
Proof.
  split.
  - intros H.
    specialize (H 0 dotted_account (redact dotted_account)
                  "0123456789...abcd" eq_refl eq_refl).
    simpl in H. enough (17 ≤ 14) by lia. apply H. left.
    split; exists "", ""; reflexivity.
  - intros H.
    specialize (H 0 blank_account (redact blank_account) eq_refl eq_refl).
    simpl in H. specialize (H (Nat.le_0_l _)). discriminate H.
Qed.

End listing_facts.

(** ** Token renewal *)

Module auth_facts.
Import py auth props.

Section renewal.
Variable int_of_str : string → option Z.
Variables (config : Config) (send : Request → reply).

#[local] Abbreviation renew := (refresh_token_call int_of_str config send).

Lemma renew_transport_error :
  send (build_request config) = NoResponse →
  renew = Raise TokenRefreshError.
Proof. unfold refresh_token_call. by intros ->. Qed.

Lemma renew_bad_status status_code body :
  send (build_request config) = Response status_code body →
  ¬ (200 ≤ status_code ≤ 299)%Z →
  renew = Raise TokenRefreshError.
Proof.
  unfold refresh_token_call. intros -> Hst. simpl.
  unfold raise_for_status. by rewrite bool_decide_eq_false_2.
Qed.

Lemma renew_no_token status_code members :
  send (build_request config)
  = Response status_code (Some (JObj members)) →
  truthy (default_or (lookup_key "accessToken" members) JNull) = false →
  renew = Raise TokenRefreshError.
Proof.
  unfold refresh_token_call. intros -> Hno. simpl.
  destruct (raise_for_status status_code); simpl; [|done].
  by rewrite Hno.
Qed.

Lemma renew_no_object status_code body :
  send (build_request config) = Response status_code body →
  (∀ members, body ≠ Some (JObj members)) →
  renew = Raise TokenRefreshError.
Proof.
  unfold refresh_token_call. intros -> Hbody. simpl.
  destruct (raise_for_status status_code); simpl; [|done].
  destruct body as [[| | | | |members]|]; try done.
  by destruct (Hbody members).
Qed.

Lemma renew_answered status_code members token :
  send (build_request config)
  = Response status_code (Some (JObj members)) →
  (200 ≤ status_code ≤ 299)%Z →
  lookup_key "accessToken" members = Some token →
  truthy token = true →
  renew
  = match (match lookup_key "expiresIn" members with
           | Some v => if truthy v then int int_of_str v else Ok 3600%Z
           | None => Ok 3600%Z
           end) with
    | Ok n =>
        Ok {| access_token := token;
              new_refresh_token :=
                match lookup_key "refreshToken" members with
                | Some r => if truthy r then Some r else None
                | None => None
                end;
              expires_in := n |}
    | Raise _ => Raise TokenRefreshError
    end.
Proof.
  unfold refresh_token_call. intros -> Hst Htoken Htruthy.
  cbn [parse_reply]. unfold raise_for_status.
  rewrite bool_decide_eq_true_2 by done. unfold get. cbn [bind].
  rewrite Htoken. cbn [default_or]. rewrite Htruthy. cbn [negb].
  destruct (lookup_key "expiresIn" members) as [v|];
    cbn [default_or truthy].
  - destruct (truthy v); [destruct (int int_of_str v)|];
      cbn [bind]; try done;
      by destruct (lookup_key "refreshToken" members) as [r|].
  - cbn [bind]. by destruct (lookup_key "refreshToken" members) as [r|].
Qed.
End renewal.

(** C8, as amended.  A renewal fails with [TokenRefreshError] when
    the request gets no response, when the status of the response is
    outside 200-299, when the body of the response is no JSON object,
    when the response has no [accessToken] or an empty one, and when it
    has an [expiresIn] that is neither 0 nor empty and that [int] does
    not convert.  On every other response with a status in 200-299 and
    an [accessToken] the renewal hands the new access token to the
    configuration, together with the rotated credential exactly when
    the response carries a [refreshToken] that is not empty, and with
    the lifetime [int(expiresIn)], or 3600 seconds when the response
    carries no [expiresIn], or one that is 0 or empty. *)
Theorem renewal_outcomes (int_of_str : string → option Z)
    (config : Config) (send : Request → reply) :
  let renew := refresh_token_call int_of_str config send in
  (send (build_request config) = NoResponse →
   renew = Raise TokenRefreshError)
  ∧ (∀ status_code body,
       send (build_request config) = Response status_code body →
       ¬ (200 ≤ status_code ≤ 299)%Z →
       renew = Raise TokenRefreshError)
  ∧ (∀ status_code body,
       send (build_request config) = Response status_code body →
       (∀ members, body ≠ Some (JObj members)) →
       renew = Raise TokenRefreshError)
  ∧ (∀ status_code members,
       send (build_request config)
       = Response status_code (Some (JObj members)) →
       truthy (default_or (lookup_key "accessToken" members) JNull) = false →
       renew = Raise TokenRefreshError)
  ∧ (∀ status_code members token,
       send (build_request config)
       = Response status_code (Some (JObj members)) →
       (200 ≤ status_code ≤ 299)%Z →
       lookup_key "accessToken" members = Some token →
       truthy token = true →
       match (match lookup_key "expiresIn" members with
              | Some v => if truthy v then int int_of_str v else Ok 3600%Z
              | None => Ok 3600%Z
              end) with
       | Raise _ => renew = Raise TokenRefreshError
       | Ok lifetime =>
           ∃ update,
             renew = Ok update
             ∧ access_token update = token
             ∧ (∀ rotated,
                  new_refresh_token update = Some rotated
                  ↔ lookup_key "refreshToken" members = Some rotated
                    ∧ truthy rotated = true)
             ∧ expires_in update = lifetime
       end).
Proof.
  intros renew. split_and!.
  - apply renew_transport_error.
  - apply renew_bad_status.
  - apply renew_no_object.
  - intros status_code members Hs Hno. by eapply renew_no_token.
  - intros status_code members token Hs Hst Htoken Htruthy. subst renew.
    rewrite (renew_answered _ _ _ _ _ _ Hs Hst Htoken Htruthy).
    destruct (match lookup_key "expiresIn" members with
              | Some v => if truthy v then int int_of_str v else Ok 3600%Z
              | None => Ok 3600%Z
              end) as [lifetime|e]; [|done].
    eexists. split; [reflexivity|]. cbn [access_token new_refresh_token
      expires_in]. split_and!; [done| |done].
    intros rotated.
    destruct (lookup_key "refreshToken" members) as [r|].
    + destruct (truthy r) eqn:Hr.
      * split; [by intros [= <-]|by intros [[= <-] _]].
      * split; [done|]. intros [[= <-] Ht]. congruence.
    + split; [done|by intros [? _]].
Qed.

Lemma renewal_outcomes_witness :
  refresh_token_call no_int config_example net_down
  = Raise TokenRefreshError
  ∧ refresh_token_call no_int config_example net_forbidden
    = Raise TokenRefreshError
  ∧ refresh_token_call no_int config_example net_not_json
    = Raise TokenRefreshError
  ∧ refresh_token_call no_int config_example net_no_token
    = Raise TokenRefreshError
  ∧ ∃ update,
      refresh_token_call no_int config_example net_token = Ok update
      ∧ access_token update = JStr "new-token"
      ∧ new_refresh_token update = Some (JStr "new-credential")
      ∧ expires_in update = 28800%Z.
Proof.
  split_and!.
  - apply (renewal_outcomes no_int config_example net_down). reflexivity.
  - apply (proj1 (proj2 (renewal_outcomes no_int config_example
                           net_forbidden))
             403%Z (Some (JObj [("error", JStr "invalid_grant")])));
      [reflexivity|lia].
  - apply (proj1 (proj2 (proj2 (renewal_outcomes no_int config_example
                                  net_not_json)))
             200%Z None); [reflexivity|done].
  - apply (proj1 (proj2 (proj2 (proj2 (renewal_outcomes no_int
                                         config_example net_no_token))))
             200%Z [("expiresIn", JNum 60)]); reflexivity.
  - pose proof (proj2 (proj2 (proj2 (proj2
                  (renewal_outcomes no_int config_example net_token))))
                  200%Z token_reply (JStr "new-token")
                  eq_refl ltac:(lia) eq_refl eq_refl) as Hok.
    cbn in Hok. destruct Hok as (update & Hu & Ha & Hr & Hl).
    exists update. split_and!; [done|done| |done].
    by apply Hr.
Defined.

(** The property as the design document has it fails on responses with a
    status in 200-299 that contain an [accessToken]: with the lifetime
    0 the renewal stores a lifetime of 3600 seconds, not of 0; with a
    lifetime that is no number, and with a token that is empty, it
    stores nothing and fails. *)
Lemma renewal_lifetime_zero_or_unreadable :
  (∃ update,
     refresh_token_call no_int config_example net_zero_lifetime
     = Ok update
     ∧ access_token update = JStr "new-token"
     ∧ expires_in update = 3600%Z)
  ∧ refresh_token_call no_int config_example net_unreadable_lifetime
    = Raise TokenRefreshError
  ∧ refresh_token_call no_int config_example net_empty_token
    = Raise TokenRefreshError.
Proof. split_and!; [by eexists|done|done]. Qed.

(** C9: what the code does.  The request of a renewal is a POST of the
    four fields with the identification headers, and its
    [Amz-Sdk-Invocation-Id] is the same literal for every configuration:
    two renewals never differ in it. *)
Theorem renewal_invocation_id_fixed (c1 c2 : Config) :
  method (build_request c1) = "POST"
  ∧ json_body (build_request c1)
    = JObj [("grantType", JStr "refresh_token");
            ("refreshToken", JStr (refresh_token c1));
            ("clientId", JStr (client_id c1));
            ("clientSecret", JStr (client_secret c1))]
  ∧ header "Content-Type" (build_request c1) = Some "application/json"
  ∧ header "Amz-Sdk-Request" (build_request c1) = Some "attempt=1; max=3"
  ∧ header "Amz-Sdk-Invocation-Id" (build_request c1)
    = Some "362523fb-ad17-428a-b3be-5a812faf0448"
  ∧ header "Amz-Sdk-Invocation-Id" (build_request c1)
    = header "Amz-Sdk-Invocation-Id" (build_request c2).
Proof. by split_and!. Qed.

End auth_facts.

(** ** Account switching around a renewal *)

Module main_facts.
Import py account_manager main props.

Section wp.
Context {S : Type}.
Implicit Types (s : S) (E : exn → S → Prop).

Lemma wp_ret {A} (a : A) (Q : A → S → Prop) E s :
  Q a s → wp (mret a) Q E s.
Proof. done. Qed.

Lemma wp_lift {A} (r : result A) (Q : A → S → Prop) E s :
  match r with Ok a => Q a s | Raise e => E e s end → wp (lift r) Q E s.
Proof. done. Qed.

Lemma wp_modify (f : S → S) (Q : unit → S → Prop) E s :
  Q () (f s) → wp (modify f) Q E s.
Proof. done. Qed.

Lemma wp_gets {A} (f : S → A) (Q : A → S → Prop) E s :
  Q (f s) s → wp (gets f) Q E s.
Proof. done. Qed.

Lemma wp_bind {A B} (m : M S A) (k : A → M S B) (Q : B → S → Prop) E s :
  wp m (λ a s', wp (k a) Q E s') E s → wp (m ≫= k) Q E s.
Proof.
  unfold wp, mbind, M_bind, and_then. by destruct (m s) as [s' [a|e]].
Qed.

Lemma wp_try {A} (m : M S A) (h : exn → M S A) (Q : A → S → Prop) E s :
  wp m Q (λ e s', wp (h e) Q E s') s → wp (try_except m h) Q E s.
Proof. unfold wp, try_except. by destruct (m s) as [s' [a|e]]. Qed.

Lemma wp_mono {A} (m : M S A) (Q Q' : A → S → Prop) E E' s :
  wp m Q E s → (∀ a s', Q a s' → Q' a s') → (∀ e s', E e s' → E' e s') →
  wp m Q' E' s.
Proof. unfold wp. destruct (m s) as [s' [a|e]]; auto. Qed.

Lemma update_refresh_status_raises (account_id status : string) s :
  update_refresh_status account_id status s = (s, Raise AttributeError).
Proof. reflexivity. Qed.

Lemma wp_update_refresh_status account_id status
    (Q : unit → S → Prop) E s :
  E AttributeError s → wp (update_refresh_status account_id status) Q E s.
Proof. done. Qed.
End wp.

Section bulk.
Variable refresh_token : nat → list Account → result bool.
Variable mgr : AccountManager.

Lemma bulk_inv_on_pool f b :
  (∀ accs, set_is_active false <$> f accs = set_is_active false <$> accs) →
  bulk_inv mgr b →
  bulk_inv mgr (mkBulk (mkManager (f (accounts (manager b)))
                                  (ACCOUNT_FILE (manager b)))
                  (success_count b) (failed_count b) (results b)).
Proof.
  intros Hf (? & Ha & ? & ?). split_and!; simpl; try done.
  by rewrite Hf.
Qed.

Lemma flags_fmap (flag : bool) (accs : list Account) :
  set_is_active false <$> (set_is_active flag <$> accs)
  = set_is_active false <$> accs.
Proof. rewrite <- list_fmap_compose. by apply list_fmap_ext. Qed.

Lemma flags_alter (flag : bool) i (accs : list Account) :
  set_is_active false <$> alter (set_is_active flag) i accs
  = set_is_active false <$> accs.
Proof.
  revert i. induction accs as [|a accs IH]; intros [|i]; try done.
  change (alter (set_is_active flag) (S i) (a :: accs))
    with (a :: alter (set_is_active flag) i accs).
  by rewrite !fmap_cons, IH.
Qed.

Lemma bulk_inv_count_failed account how b :
  how = "skipped" ∨ how = "error" →
  bulk_inv mgr b →
  bulk_inv mgr (mkBulk (manager b) (success_count b) (failed_count b + 1)
                  (results b ++ [mkOutcome (id account) (name account)
                                   how])).
Proof.
  intros Hhow (? & ? & ? & Hr). split_and!; simpl; try done.
  apply Forall_app. split; [done|]. by apply Forall_singleton.
Qed.

Lemma refresh_one_inv i account b :
  bulk_inv mgr b →
  wp (refresh_one refresh_token i account)
     (λ _ b', bulk_inv mgr b') (λ _ _, False) b.
Proof.
  intros Hb. unfold refresh_one. apply wp_try.
  destruct (incomplete account).
  - apply wp_modify. apply bulk_inv_count_failed; auto.
  - apply wp_bind, wp_modify, wp_bind, wp_modify.
    apply wp_try, wp_bind, wp_gets, wp_bind, wp_lift.
    assert (bulk_inv mgr
              (mkBulk
                 (mkManager
                    (alter (set_is_active true) i
                       (set_is_active false <$> accounts (manager b)))
                    (ACCOUNT_FILE (manager b)))
                 (success_count b) (failed_count b) (results b)))
      as Hb'.
    { destruct Hb as (? & Ha & ? & ?). split_and!; simpl; try done.
      by rewrite flags_alter, flags_fmap. }
    assert (wp (update_refresh_status (id account) "failed";;
                     count_failed account "failed")
                   (λ _ b', bulk_inv mgr b')
                   (λ _ b', wp (count_failed account "error")
                              (λ _ b', bulk_inv mgr b') (λ _ _, False) b')
                   (mkBulk
                      (mkManager
                         (alter (set_is_active true) i
                            (set_is_active false <$> accounts (manager b)))
                         (ACCOUNT_FILE (manager b)))
                      (success_count b) (failed_count b) (results b)))
      as Hfail.
    { apply wp_bind, wp_update_refresh_status, wp_modify.
      apply bulk_inv_count_failed; auto. }
    destruct (refresh_token i _) as [ok|e]; simpl.
    + apply wp_bind, wp_update_refresh_status. by apply Hfail.
    + by apply Hfail.
Qed.

Lemma refresh_each_inv positions b :
  bulk_inv mgr b →
  wp (refresh_each refresh_token positions)
     (λ _ b', bulk_inv mgr b') (λ _ _, False) b.
Proof.
  revert b. induction positions as [|i rest IH]; intros b Hb; [done|].
  simpl. apply wp_bind, wp_gets.
  destruct (accounts (manager b) !! i) as [account|]; [|done].
  apply wp_bind. eapply wp_mono; [by apply refresh_one_inv| |done].
  intros u b' Hb'. by apply IH.
Qed.

Lemma restore_active_flags old (accs1 accs2 : list Account) :
  set_is_active false <$> accs1 = set_is_active false <$> accs2 →
  restore_active old accs1 = restore_active old accs2.
Proof. unfold restore_active. by intros ->. Qed.

(** What the bulk refresh leaves behind, whatever the renewals did:
    the file as it was, no success counted, a report of skipped
    accounts and errors, and the pool with the flags of
    [restore_active]. *)
Lemma refresh_all_accounts_effect :
  let b := (refresh_all_accounts refresh_token mgr).1 in
  ACCOUNT_FILE (manager b) = ACCOUNT_FILE mgr
  ∧ success_count b = 0
  ∧ Forall (λ o, o_status o = "skipped" ∨ o_status o = "error")
           (results b)
  ∧ (accounts mgr ≠ [] →
     accounts (manager b)
     = restore_active
         ((λ found, id (snd found))
            <$> list_find (λ acc, is_active acc = true) (accounts mgr))
         (accounts mgr)).
Proof.
  unfold refresh_all_accounts. case_bool_decide as Hempty; [done|].
  set (old := _ <$> list_find _ _).
  set (m := refresh_each _ _ ≫= _).
  assert (wp m (λ _ b, bulk_inv mgr b
                       ∧ accounts (manager b)
                         = restore_active old (accounts mgr))
             (λ _ _, False) (mkBulk mgr 0 0 [])) as Hwp.
  { apply wp_bind.
    eapply wp_mono; [apply refresh_each_inv| |done].
    - by split_and!.
    - intros u b Hb. apply wp_modify. split.
      + apply bulk_inv_on_pool; [|done].
        intros accs. unfold restore_active.
        repeat case_match; unfold activate_first_with_id;
          repeat case_match;
          rewrite ?flags_alter, ?flags_fmap; done.
      + simpl. apply restore_active_flags. apply Hb. }
  unfold wp in Hwp. destruct (m _) as [b [u|e]]; [|done]. simpl.
  destruct Hwp as ((? & ? & ? & ?) & ?). by split_and!.
Qed.
End bulk.

Lemma list_find_by_id (f : Account → Account) (accs : list Account) k a :
  (∀ acc, id (f acc) = id acc) →
  NoDup (id <$> accs) → accs !! k = Some a →
  list_find (λ acc, id acc = id a) (f <$> accs) = Some (k, f a).
Proof.
  intros Hf Hnd Hk. apply list_find_Some. split_and!.
  - by rewrite list_lookup_fmap, Hk.
  - apply Hf.
  - intros j y Hj Hlt Hid.
    rewrite list_lookup_fmap in Hj.
    destruct (accs !! j) as [x|] eqn:Hx; simplify_eq/=.
    rewrite Hf in Hid.
    assert (j = k); [|lia].
    eapply NoDup_lookup; [done| |].
    + by rewrite list_lookup_fmap, Hx.
    + by rewrite list_lookup_fmap, Hk, Hid.
Qed.

Lemma restore_active_lookup (accs : list Account) :
  NoDup (id <$> accs) → (∀ acc, acc ∈ accs → id acc ≠ "") →
  ∀ j, restore_active
         ((λ found, id (snd found))
            <$> list_find (λ acc, is_active acc = true) accs) accs !! j
       = set_is_active (bool_decide (j = active_position accs))
           <$> accs !! j.
Proof.
  intros Hnd Hid j. unfold restore_active, active_position.
  destruct (list_find _ accs) as [[k a]|] eqn:Hf; simpl.
  - apply list_find_Some in Hf as (Hk & _ & _).
    assert (str_truthy (id a) = true) as ->.
    { specialize (Hid a (list_elem_of_lookup_2 _ _ _ Hk)).
      by destruct (id a). }
    unfold activate_first_with_id.
    rewrite (list_find_by_id (set_is_active false) accs k a) by done.
    destruct (decide (j = k)) as [->|Hne].
    + rewrite list_lookup_alter_eq, list_lookup_fmap, Hk.
      by rewrite bool_decide_eq_true_2.
    + rewrite list_lookup_alter_ne, list_lookup_fmap by done.
      by rewrite bool_decide_eq_false_2.
  - case_bool_decide as Hne.
    + destruct (decide (j = 0)) as [->|Hj].
      * rewrite list_lookup_alter_eq, list_lookup_fmap.
        by destruct (accs !! 0).
      * rewrite list_lookup_alter_ne, list_lookup_fmap by done.
        by rewrite bool_decide_eq_false_2.
    + apply fmap_nil_inv in Hne as ->. done.
Qed.

Section manual.
Variable refresh_token : nat → list Account → result bool.

Lemma refresh_found_raises account_id i account (mgr : AccountManager) :
  wp (refresh_found refresh_token account_id i account)
     (λ _ _, False)
     (λ e mgr', e = AttributeError
                ∧ ACCOUNT_FILE mgr' = ACCOUNT_FILE mgr
                ∧ accounts mgr'
                  = alter (set_is_active true) i
                      ((λ acc, if is_active acc
                               then set_is_active false acc else acc)
                         <$> accounts mgr))
     mgr.
Proof.
  unfold refresh_found.
  apply wp_bind, wp_gets, wp_bind, wp_modify, wp_bind, wp_modify.
  apply wp_try, wp_bind, wp_gets, wp_bind, wp_lift.
  destruct (refresh_token i _) as [ok|e]; simpl.
  - apply wp_bind, wp_update_refresh_status.
    by apply wp_bind, wp_update_refresh_status.
  - by apply wp_bind, wp_update_refresh_status.
Qed.

(** What the manual refresh leaves behind, whatever the renewal did:
    the file as it was and no success; for a complete account that is
    found, status 500 and, in memory, that account as the one active
    account. *)
Lemma refresh_account_token_effect account_id (mgr : AccountManager) :
  let r := refresh_account_token refresh_token account_id mgr in
  ACCOUNT_FILE r.1 = ACCOUNT_FILE mgr
  ∧ (r.2 = 404 ∨ r.2 = 400 ∨ r.2 = 500)%Z
  ∧ ∀ i account,
      (get_account_by_id account_id mgr).2 = Some (i, account) →
      incomplete account = false →
      r.2 = 500%Z
      ∧ ∀ j, accounts r.1 !! j
             = set_is_active (bool_decide (j = i))
                 <$> accounts (load_accounts mgr) !! j.
Proof.
  unfold refresh_account_token, get_account_by_id. simpl.
  assert (ACCOUNT_FILE (load_accounts mgr) = ACCOUNT_FILE mgr) as Hfile
    by (unfold load_accounts; by destruct (ACCOUNT_FILE mgr)).
  destruct (list_find _ _) as [[i account]|] eqn:Hf; simpl;
    [|split_and!; [done|auto|done]].
  destruct (incomplete account) eqn:Hinc; simpl.
  { split_and!; [done|auto|]. intros ?? [= <- <-] ?. congruence. }
  pose proof (refresh_found_raises account_id i account
                (load_accounts mgr)) as Hwp.
  unfold wp in Hwp.
  destruct (refresh_found _ _ _ _ _) as [mgr' [code|e]]; [done|].
  destruct Hwp as (-> & Hfile' & Haccs). simpl.
  split_and!; [congruence|auto|].
  intros ?? [= <- <-] _. split; [done|]. intros j. rewrite Haccs.
  destruct (decide (j = i)) as [->|Hne].
  - rewrite list_lookup_alter_eq, list_lookup_fmap,
      bool_decide_eq_true_2 by done.
    destruct (_ !! i) as [a|]; [|done]. simpl.
    by destruct (is_active a).
  - rewrite list_lookup_alter_ne, list_lookup_fmap,
      bool_decide_eq_false_2 by done.
    destruct (_ !! j) as [a|]; [|done]. simpl.
    destruct (is_active a) eqn:Ha; [done|].
    symmetry. f_equal. by apply account_manager_facts.set_is_active_same.
Qed.
End manual.

Lemma sweep_each_unchanged
    (sweep_rest : nat → Account → M AccountManager unit)
    (positions : list nat) (mgr : AccountManager) :
  sweep_each sweep_rest positions mgr = (mgr, Ok ()).
Proof.
  induction positions as [|i rest IH]; [done|].
  simpl. unfold mbind, M_bind, and_then, gets.
  destruct (accounts mgr !! i); [|done].
  exact IH.
Qed.

(** C3: what the code does.  [update_refresh_status] is looked up on
    an [AccountManager] and is not there: each call raises
    [AttributeError] and writes nothing.  So the bulk refresh leaves
    the account file as it was and reports every account that it did
    not skip as an error, also when its renewal succeeded; and the
    manual refresh leaves the file as it was and, for a complete
    account, answers 500.  A pass of the background loop, which reads
    [last_refresh_time] from an [Account] that has no such name, changes
    nothing and renews nothing. *)
Theorem refresh_outcome_never_recorded
    (refresh_token : nat → list Account → result bool)
    (sweep_rest : nat → Account → M AccountManager unit)
    (mgr : AccountManager) (account_id status : string) :
  update_refresh_status account_id status mgr = (mgr, Raise AttributeError)
  ∧ _background_token_refresh_pass sweep_rest mgr = (mgr, Ok ())
  ∧ (let b := (refresh_all_accounts refresh_token mgr).1 in
     ACCOUNT_FILE (manager b) = ACCOUNT_FILE mgr
     ∧ success_count b = 0
     ∧ Forall (λ o, o_status o = "skipped" ∨ o_status o = "error")
              (results b))
  ∧ (let r := refresh_account_token refresh_token account_id mgr in
     ACCOUNT_FILE r.1 = ACCOUNT_FILE mgr
     ∧ (r.2 = 404 ∨ r.2 = 400 ∨ r.2 = 500)%Z)
  ∧ o_status <$> results
      (refresh_all_accounts always_renewed (manager_of [account_a])).1
    = ["error"]
  ∧ (refresh_account_token always_renewed "a" (manager_of [account_a])).2
    = 500%Z.
Proof.
  split_and!; try done.
  - apply sweep_each_unchanged.
  - pose proof (refresh_all_accounts_effect refresh_token mgr)
      as (? & ? & ? & _).
    by split_and!.
  - pose proof (refresh_account_token_effect refresh_token account_id mgr)
      as (? & ? & _).
    by split.
Qed.

(** C4, amended.  After a bulk refresh of a pool whose account ids are
    distinct and not empty, whatever the renewals did, the accounts are
    as they were but for their flags: the account that was active
    before (the first one flagged) is active again, or the first
    account of the pool if none was, and every other account is
    inactive. *)
Theorem bulk_refresh_restores_active
    (refresh_token : nat → list Account → result bool)
    (mgr : AccountManager) :
  NoDup (id <$> accounts mgr) →
  (∀ acc, acc ∈ accounts mgr → id acc ≠ "") →
  let after := accounts (manager (refresh_all_accounts refresh_token mgr).1) in
  ∀ j, after !! j
       = set_is_active (bool_decide (j = active_position (accounts mgr)))
           <$> accounts mgr !! j.
Proof.
  intros Hnd Hid after j. subst after.
  destruct (decide (accounts mgr = [])) as [Hempty|Hne].
  - unfold refresh_all_accounts. rewrite bool_decide_eq_true_2 by done.
    simpl. by rewrite Hempty.
  - pose proof (refresh_all_accounts_effect refresh_token mgr)
      as (_ & _ & _ & Heff).
    rewrite (Heff Hne). by apply restore_active_lookup.
Qed.

Lemma bulk_refresh_restores_active_witness :
  is_active
    <$> accounts
          (manager
             (refresh_all_accounts always_renewed
                (manager_of [account_a; account_b;
                             set_is_active true account_c])).1)
  = [false; false; true].
Proof.
  apply list_eq. intros j. rewrite list_lookup_fmap.
  rewrite (bulk_refresh_restores_active always_renewed
             (manager_of [account_a; account_b;
                          set_is_active true account_c])).
  - by destruct j as [|[|[|j]]].
  - apply (bool_decide_unpack _). by vm_compute.
  - intros acc Hin. simpl in Hin.
    repeat (apply elem_of_cons in Hin as [->|Hin]; [done|]).
    by apply elem_of_nil in Hin.
Defined.

(** C4 as stated fails.  In a pool of two accounts, none of them
    active, whose first account lacks its client secret, the bulk
    refresh skips the first account and renews the second, and leaves
    the first one active. *)
Lemma bulk_refresh_activates_skipped :
  ¬ leaves_renewed_active always_renewed (manager_of [account_b; account_c]).
Proof.
  intros H. destruct H as (j & acc & o & Hj & Hact & Ho & _ & Hst);
    [done|].
  destruct j as [|[|j]]; simpl in Hj, Ho; simplify_eq/=.
Qed.

(** C5: what the code does.  For [stream=false] the text collected
    from the backend response stays empty, whatever the body of the
    response: the message content of the object returned is [""]. *)
Theorem unary_content_is_empty (body : list string) (model uuid4 : string)
    (created : Z) :
  ∃ response,
    chat_completions_unary 200 body model uuid4 created = Ok response
    ∧ message_content response = Some (JStr "").
Proof.
  unfold chat_completions_unary. rewrite bool_decide_eq_false_2 by auto.
  eexists. split; [done|].
  assert (∀ acc, foldl (λ (full_text : string) (chunk : string),
                          if str_truthy chunk then full_text else full_text)
                       acc body = acc) as ->; [|done].
  induction body as [|chunk body IH]; intros acc; [done|].
  simpl. rewrite IH. by destruct (str_truthy chunk).
Qed.

End main_facts.

(** ** The OpenAI stream *)

Module stream_facts.
Import py main props.

Section stream.
Variable json_loads : string → option json.
Variables (stream_id model : string) (created : Z).

#[local] Abbreviation decode := (main.decode json_loads).
#[local] Abbreviation role := (role_chunk stream_id model created).
#[local] Abbreviation content := (content_chunk stream_id model created).
#[local] Abbreviation finish := (finish_chunk stream_id model created).
#[local] Abbreviation on_event := (main.on_event stream_id model created).
#[local] Abbreviation on_blocks :=
  (main.on_blocks json_loads stream_id model created).
#[local] Abbreviation openai_stream :=
  (main.openai_stream json_loads stream_id model created).

#[local] Abbreviation chunks_of_event :=
  (props.chunks_of_event stream_id model created).

Lemma py_eq_tag v tag :
  py_eq v (JStr tag)
  = match v with JStr t => String.eqb t tag | _ => false end.
Proof. by destruct v. Qed.

Lemma on_event_typed ev g :
  stream_event ev →
  on_event ev g
  = (mkGen true (yielded g ++ (if role_sent g then [] else [role])
                   ++ chunks_of_event ev), Ok ()).
Proof.
  destruct ev as [| | | | |members]; try done. intros Hty.
  unfold props.chunks_of_event, delta_text. unfold stream_event in Hty.
  unfold main.on_event, mbind, M_bind, and_then, lift, gets, yield,
    modify, get, mret, M_ret, ret.
  destruct g as [sent out]. cbn [has_type] in *.
  rewrite !py_eq_tag.
  destruct (lookup_key "type" members) as [[| | |t| |]|] eqn:Ht.
  1-3, 5-7: destruct sent; simpl; rewrite ?app_nil_r, <- ?app_assoc; done.
  cbn [default_or].
  destruct (String.eqb t "content_block_delta") eqn:Hd.
  - apply String.eqb_eq in Hd as ->.
    destruct (lookup_key "delta" members) as [[| | | | |delta]|] eqn:Hdl;
      try done; cbn [default_or].
    + destruct (lookup_key "text" delta) as [text|] eqn:Htx;
        cbn [default_or lookup_key].
      * destruct (truthy text) eqn:Htext.
        -- assert (∃ shown, slice 50 text = Ok shown) as [shown Hshown].
           { unfold stream_text in Hty.
             destruct text as [|b|n|t'|items|ms]; try congruence.
             - by exists (JStr (slice_to 50 t')).
             - by exists (JArr (take 50 items)). }
           destruct sent; simpl; rewrite ?Htext, ?Hshown; simpl;
             rewrite ?app_nil_r, <- ?app_assoc; done.
        -- destruct sent; simpl; rewrite ?Htext;
             rewrite ?app_nil_r, <- ?app_assoc; done.
      * destruct sent; simpl; rewrite ?app_nil_r, <- ?app_assoc; done.
    + destruct sent; simpl; rewrite ?app_nil_r, <- ?app_assoc; done.
  - destruct (String.eqb t "message_stop") eqn:Hs;
      destruct sent; simpl; rewrite ?app_nil_r, <- ?app_assoc; done.
Qed.

#[local] Abbreviation events := (props.events json_loads).
#[local] Abbreviation role_prefix :=
  (props.role_prefix stream_id model created).

Lemma on_blocks_typed blocks g :
  Forall stream_event (events blocks) →
  on_blocks blocks g
  = (mkGen (role_sent g || bool_decide (events blocks ≠ []))
       (yielded g ++ role_prefix (role_sent g) (events blocks)
          ++ flat_map chunks_of_event (events blocks)), Ok ()).
Proof.
  revert g. induction blocks as [|b blocks IH]; intros g Hty.
  - destruct g as [[] out]; simpl; by rewrite app_nil_r.
  - unfold props.events in *. simpl in *.
    destruct (main.decode json_loads b) as [ev|] eqn:Hb; simpl in *.
    + apply Forall_cons in Hty as [Hev Hty].
      unfold mbind, M_bind, and_then. rewrite on_event_typed by done.
      rewrite IH by done. simpl. f_equal. f_equal.
      * by rewrite orb_true_r.
      * destruct (role_sent g); simpl; rewrite <- ?app_assoc; done.
    + by apply IH.
Qed.

(** The stream of events that are well typed: the role chunk if
    there is an event, what each event adds, and [DONE]. *)
Lemma openai_stream_typed blocks :
  Forall stream_event (events blocks) →
  openai_stream blocks
  = (role_prefix false (events blocks)
       ++ flat_map chunks_of_event (events blocks) ++ [DONE], None).
Proof.
  intros Hty. unfold main.openai_stream, mbind, M_bind, and_then.
  rewrite on_blocks_typed by done. simpl. by rewrite <- app_assoc.
Qed.

Lemma count_app f (l1 l2 : list sse) :
  count f (l1 ++ l2) = count f l1 + count f l2.
Proof. unfold count. by rewrite List.filter_app, length_app. Qed.

Lemma delta_text_not_stop ev text :
  delta_text ev = Some text → has_type "message_stop" ev = false.
Proof.
  unfold delta_text. destruct (has_type "content_block_delta" ev) eqn:Hd;
    [|done].
  intros _. destruct ev as [| | | | |members]; try done. simpl in *.
  destruct (lookup_key "type" members) as [[| | |t| |]|]; try done.
  by apply String.eqb_eq in Hd as ->.
Qed.

Lemma chunks_of_event_kinds ev :
  count is_role (chunks_of_event ev) = 0
  ∧ count is_done (chunks_of_event ev) = 0
  ∧ omap content_of (chunks_of_event ev) = option_list (delta_text ev)
  ∧ count is_finish (chunks_of_event ev)
    = (if has_type "message_stop" ev then 1 else 0).
Proof.
  unfold props.chunks_of_event.
  destruct (delta_text ev) as [text|] eqn:Ht.
  - by rewrite (delta_text_not_stop _ _ Ht).
  - by destruct (has_type "message_stop" ev).
Qed.

Lemma body_kinds evs :
  count is_role (flat_map chunks_of_event evs) = 0
  ∧ count is_done (flat_map chunks_of_event evs) = 0
  ∧ omap content_of (flat_map chunks_of_event evs) = omap delta_text evs
  ∧ count is_finish (flat_map chunks_of_event evs)
    = length (List.filter (has_type "message_stop") evs).
Proof.
  induction evs as [|ev evs (IH1 & IH2 & IH3 & IH4)]; [done|].
  destruct (chunks_of_event_kinds ev) as (H1 & H2 & H3 & H4).
  simpl. rewrite !count_app, omap_app, IH1, IH2, IH3, IH4, H1, H2, H3, H4.
  split_and!; try done.
  - by destruct (delta_text ev).
  - by destruct (has_type "message_stop" ev).
Qed.


Lemma on_event_grows ev g :
  ∃ xs, yielded (on_event ev g).1 = yielded g ++ xs
        ∧ (role_sent g = false → (∃ members, ev = JObj members) →
           ∃ ys, xs = role :: ys).
Proof.
  destruct g as [sent out], ev as [| | | | |members];
    try (exists []; simpl; rewrite app_nil_r;
         split; [done|by intros _ [? ?]]).
  unfold main.on_event, mbind, M_bind, and_then, lift, gets, yield,
    modify, get, mret, M_ret, ret.
  cbn [role_sent yielded].
  destruct sent; cbn [negb];
    destruct (py_eq _ (JStr "content_block_delta"));
    [destruct (default_or (lookup_key "delta" members) (JObj []))
       as [| | | | |delta];
     [..|destruct (truthy (default_or (lookup_key "text" delta)
                             (JStr "")));
         [destruct (slice 50 (default_or (lookup_key "text" delta)
                                (JStr "")))|]]
    |destruct (py_eq _ (JStr "message_stop"))
    |destruct (default_or (lookup_key "delta" members) (JObj []))
       as [| | | | |delta];
     [..|destruct (truthy (default_or (lookup_key "text" delta)
                             (JStr "")));
         [destruct (slice 50 (default_or (lookup_key "text" delta)
                                (JStr "")))|]]
    |destruct (py_eq _ (JStr "message_stop"))];
    simpl; rewrite <- ?app_assoc;
    eexists; (split; [try reflexivity; by rewrite app_nil_r
                     |try done; intros _ _; by eexists]).
Qed.

Lemma on_blocks_grows blocks g :
  ∃ xs, yielded (on_blocks blocks g).1 = yielded g ++ xs.
Proof.
  revert g. induction blocks as [|b blocks IH]; intros g.
  - exists []. simpl. by rewrite app_nil_r.
  - simpl. destruct (main.decode json_loads b) as [ev|]; [|apply IH].
    unfold mbind, M_bind, and_then.
    destruct (on_event_grows ev g) as (xs & Hxs & _).
    destruct (main.on_event _ _ _ ev g) as [g1 [u|e]]; simpl in *.
    + destruct (IH g1) as (ys & Hys). exists (xs ++ ys).
      by rewrite Hys, Hxs, app_assoc.
    + by exists xs.
Qed.


(** C2, as amended.  For the events that the blocks of a backend
    stream decode to (objects; the delta of a [content_block_delta]
    an object, its text a string, or a list or a value that counts
    as false), the generator ends without an
    exception and yields: exactly one role chunk if there is an
    event, which is the first thing yielded and so comes before every
    content chunk, and no role chunk if there is no event; one
    content chunk for each [content_block_delta] event that carries
    text, with that text, in the order of arrival; one finish chunk
    with the finish reason [stop] for each [message_stop] event, in
    its place among the content chunks; and after all of these one
    [DONE], the only one, whether or not a [message_stop] was seen.
    In particular the events [content_block_delta("hi")],
    [content_block_delta("!")], [message_stop] give the role chunk,
    the content chunks for "hi" and "!", the finish chunk and [DONE],
    in that order. *)
Theorem openai_stream_translation (blocks : list string) :
  let evs := events blocks in
  let out := openai_stream blocks in
  Forall stream_event evs →
  out.2 = None
  ∧ out.1 = role_prefix false evs ++ flat_map chunks_of_event evs ++ [DONE]
  ∧ count is_role out.1 = (if bool_decide (evs = []) then 0 else 1)
  ∧ (evs ≠ [] → out.1 !! 0 = Some role)
  ∧ (∀ i c, out.1 !! i = Some c → is_Some (content_of c) →
            0 < i ∧ out.1 !! 0 = Some role ∧ count is_role out.1 = 1)
  ∧ omap content_of out.1 = omap delta_text evs
  ∧ count is_finish out.1
    = length (List.filter (has_type "message_stop") evs)
  ∧ (∃ before, out.1 = before ++ [DONE] ∧ count is_done before = 0)
  ∧ (evs = [delta_event "hi"; delta_event "!"; stop_event] →
     out.1 = [role; content (JStr "hi"); content (JStr "!"); finish;
              DONE]).
Proof.
  intros evs out Hty. subst out.
  rewrite (openai_stream_typed blocks Hty). fold evs. cbn [fst snd].
  destruct (body_kinds evs) as (Hrole & Hdone & Hcontent & Hfinish).
  assert (count is_role (role_prefix false evs)
          = if bool_decide (evs = []) then 0 else 1) as Hpre
    by (by destruct evs).
  split_and!.
  - done.
  - done.
  - rewrite !count_app, Hrole, Hpre.
    change (count is_role [DONE]) with 0. case_bool_decide; lia.
  - by destruct evs.
  - intros i c Hc Hsome.
    destruct evs as [|ev evs'].
    + destruct i as [|[|i]]; simplify_eq/=. by destruct Hsome.
    + change (props.role_prefix stream_id model created false (ev :: evs'))
        with [role] in *.
      rewrite !count_app, Hrole.
      change (count is_role [DONE]) with 0.
      change (count is_role [role]) with 1.
      split_and!; [|done|done].
      destruct i; [|lia]. simplify_eq/=. by destruct Hsome.
  - rewrite !omap_app, Hcontent.
    assert (omap content_of (role_prefix false evs) = []) as ->
      by (by destruct evs).
    simpl. by rewrite app_nil_r.
  - rewrite !count_app, Hfinish.
    assert (count is_finish (role_prefix false evs) = 0) as ->
      by (by destruct evs).
    change (count is_finish [DONE]) with 0. lia.
  - eexists. split; [by rewrite app_assoc|].
    rewrite count_app, Hdone. by destruct evs.
  - by intros ->.
Qed.

End stream.

Lemma openai_stream_translation_witness :
  (openai_stream loads_example "chatcmpl-1" "claude-sonnet-4.5" 0
     blocks_example).1
  = [role_chunk "chatcmpl-1" "claude-sonnet-4.5" 0;
     content_chunk "chatcmpl-1" "claude-sonnet-4.5" 0 (JStr "hi");
     content_chunk "chatcmpl-1" "claude-sonnet-4.5" 0 (JStr "!");
     finish_chunk "chatcmpl-1" "claude-sonnet-4.5" 0;
     DONE].
Proof.
  apply (openai_stream_translation loads_example "chatcmpl-1"
           "claude-sonnet-4.5" 0 blocks_example).
  - vm_compute. repeat constructor.
  - by vm_compute.
Defined.

(** The property as the design document has it, for every sequence of
    events, fails on the sequence without events: the stream is
    [DONE] alone, with no role chunk. *)
Lemma openai_stream_without_events :
  events loads_example ["event: ping"] = []
  ∧ openai_stream loads_example "chatcmpl-1" "claude-sonnet-4.5" 0
      ["event: ping"]
    = ([DONE], None)
  ∧ count is_role
      (openai_stream loads_example "chatcmpl-1" "claude-sonnet-4.5" 0
         ["event: ping"]).1
    = 0.
Proof. by vm_compute. Qed.


End stream_facts.

(** ** Tool results of the current message *)

Module tool_result_facts.
Import py main props.

Implicit Types (r x : json) (rs p : list json) (t : string).

Lemma lookup_store_ne k k' v members :
  k ≠ k' → lookup_key k' (store_key k v members) = lookup_key k' members.
Proof.
  intros Hne. induction members as [|[k0 v0] members IH]; [done|].
  simpl. destruct (String.eqb_spec k0 k) as [->|Hk]; simpl.
  - by rewrite (proj2 (String.eqb_neq _ _) Hne).
  - destruct (String.eqb k0 k'); [done|apply IH].
Qed.

Lemma lookup_store_eq k v members :
  is_Some (lookup_key k members) →
  lookup_key k (store_key k v members) = Some v.
Proof.
  induction members as [|[k0 v0] members IH]; intros [w Hw]; [done|].
  simpl in *. destruct (String.eqb k0 k) eqn:Hk; simpl; rewrite Hk; [done|].
  apply IH. by eexists.
Qed.

Lemma store_store k v v' members :
  store_key k v' (store_key k v members) = store_key k v' members.
Proof.
  induction members as [|[k0 v0] members IH]; [done|].
  simpl. destruct (String.eqb k0 k) eqn:Hk; simpl; rewrite Hk; [done|].
  by rewrite IH.
Qed.

Lemma store_same k v members :
  lookup_key k members = Some v → store_key k v members = members.
Proof.
  induction members as [|[k0 v0] members IH]; [done|].
  simpl. destruct (String.eqb k0 k) eqn:Hk; [by intros [= ->]|].
  intros H. by rewrite IH.
Qed.

Lemma id_of_with_content items r : id_of (with_content items r) = id_of r.
Proof.
  destruct r as [| | | | |members]; try done. simpl.
  by rewrite lookup_store_ne.
Qed.

Lemma tool_result_with_content items r :
  tool_result r → tool_result (with_content items r).
Proof.
  destruct r as [| | | | |members]; try done. simpl.
  rewrite lookup_store_ne by done.
  destruct (lookup_key "toolUseId" members) as [[| | |t| |]|]; try done.
  destruct (lookup_key "content" members) as [[| | | |items'|]|] eqn:Hc;
    try done.
  intros _. by rewrite lookup_store_eq by (rewrite Hc; by eexists).
Qed.

Lemma entries_with_content items r :
  tool_result r → entries (with_content items r) = items.
Proof.
  destruct r as [| | | | |members]; try done. simpl.
  destruct (lookup_key "toolUseId" members) as [[| | |t| |]|]; try done.
  destruct (lookup_key "content" members) as [[| | | |items'|]|] eqn:Hc;
    try done.
  intros _. by rewrite lookup_store_eq by (rewrite Hc; by eexists).
Qed.

Lemma with_content_twice items items' r :
  with_content items' (with_content items r) = with_content items' r.
Proof.
  destruct r as [| | | | |members]; try done. simpl.
  by rewrite store_store.
Qed.

Lemma with_content_same r : tool_result r → with_content (entries r) r = r.
Proof.
  destruct r as [| | | | |members]; try done. simpl.
  destruct (lookup_key "toolUseId" members) as [[| | |t| |]|]; try done.
  destruct (lookup_key "content" members) as [[| | | |items'|]|] eqn:Hc;
    try done.
  intros _. by rewrite store_same.
Qed.

Lemma get_tool_use_id r :
  tool_result r → get r "toolUseId" JNull = Ok (JStr (id_of r)).
Proof.
  destruct r as [| | | | |members]; try done. simpl.
  by destruct (lookup_key "toolUseId" members) as [[| | |t| |]|].
Qed.

(** Line 875 on records: the content entries of [x] go after those of
    [r]. *)
Lemma extend_content_record r x :
  tool_result r → tool_result x →
  extend_content r x = Ok (with_content (entries r ++ entries x) r).
Proof.
  destruct r as [| | | | |members]; try done.
  destruct x as [| | | | |members']; try done. simpl.
  destruct (lookup_key "toolUseId" members) as [[| | |t| |]|]; try done.
  destruct (lookup_key "content" members) as [[| | | |items|]|]; try done.
  destruct (lookup_key "toolUseId" members') as [[| | |t'| |]|]; try done.
  by destruct (lookup_key "content" members') as [[| | | |items'|]|].
Qed.

Lemma existsb_seen t (ids : list string) :
  existsb (py_eq (JStr t)) (JStr <$> ids) = bool_decide (t ∈ ids).
Proof.
  induction ids as [|i ids IH]; [done|].
  rewrite fmap_cons. cbn [existsb py_eq]. rewrite IH.
  destruct (String.eqb_spec t i) as [->|Hne].
  - simpl. symmetry. apply bool_decide_eq_true_2. left.
  - simpl. apply bool_decide_ext. rewrite elem_of_cons.
    split; [auto|by intros [?|?]].
Qed.

(** The loop of lines 873-877 over entries with distinct ids. *)
Lemma merge_into_records x p :
  tool_result x → Forall tool_result p → NoDup (id_of <$> p) →
  merge_into (JStr (id_of x)) x p
  = Ok ((λ r, if decide (id_of r = id_of x)
              then with_content (entries r ++ entries x) r else r) <$> p).
Proof.
  intros Hx. induction 1 as [|r p Hr Hp IH]; intros Hnd; [done|].
  apply NoDup_cons in Hnd as [Hnotin Hnd]. simpl.
  rewrite get_tool_use_id by done. simpl.
  destruct (String.eqb_spec (id_of r) (id_of x)) as [E|Hne].
  - rewrite extend_content_record by done. simpl.
    rewrite decide_True by done. do 2 f_equal.
    rewrite <- (list_fmap_id p) at 1. apply list_fmap_ext.
    intros i r' Hr'. rewrite decide_False; [done|].
    intros E'. apply Hnotin. rewrite E, <- E'.
    apply list_elem_of_fmap_2. by eapply list_elem_of_lookup_2.
  - rewrite IH by done. simpl. by rewrite decide_False.
Qed.

Lemma firsts_subset r rs : r ∈ firsts rs → r ∈ rs.
Proof.
  induction rs as [|x rs IH]; [done|]. simpl.
  rewrite !elem_of_cons, list_elem_of_filter.
  intros [->|[_ Hr]]; [by left|right; by apply IH].
Qed.

Lemma firsts_ids t rs : t ∈ id_of <$> firsts rs ↔ t ∈ id_of <$> rs.
Proof.
  induction rs as [|x rs IH]; [done|]. simpl.
  rewrite !elem_of_cons, <- IH, !list_elem_of_fmap.
  setoid_rewrite list_elem_of_filter.
  destruct (decide (t = id_of x)) as [->|Hne]; [split; by left|].
  split.
  - intros [?|(r & -> & _ & Hr)]; [done|]. right. by exists r.
  - intros [?|(r & -> & Hr)]; [done|]. right. by exists r.
Qed.

Lemma firsts_NoDup rs : NoDup (id_of <$> firsts rs).
Proof.
  induction rs as [|x rs IH]; [constructor|]. simpl.
  apply NoDup_cons. split.
  - rewrite list_elem_of_fmap. intros (r & E & Hr).
    apply list_elem_of_filter in Hr as [Hne _]. congruence.
  - eapply sublist_NoDup; [done|].
    apply fmap_sublist, sublist_filter.
Qed.

Lemma firsts_snoc rs x :
  firsts (rs ++ [x])
  = if decide (id_of x ∈ id_of <$> rs) then firsts rs
    else firsts rs ++ [x].
Proof.
  induction rs as [|r rs IH]; [done|]. simpl. rewrite IH.
  destruct (decide (id_of x ∈ id_of <$> rs)) as [Hin|Hnotin].
  - rewrite decide_True by (apply elem_of_cons; by right). done.
  - rewrite filter_app, filter_cons, filter_nil.
    destruct (decide (id_of x = id_of r)) as [E|Hne].
    + rewrite (decide_False (P := id_of x ≠ id_of r)) by (by intros ?).
      rewrite app_nil_r. case_decide as Hm; [done|].
      destruct Hm. apply elem_of_cons. by left.
    + rewrite (decide_True (P := id_of x ≠ id_of r)) by done.
      case_decide as Hm; [|done].
      apply elem_of_cons in Hm as [?|?]; done.
Qed.

(** A record among [firsts] is the first of its id. *)
Lemma firsts_first r rs :
  r ∈ firsts rs →
  ∃ j, list_find (λ x, id_of x = id_of r) rs = Some (j, r).
Proof.
  induction rs as [|x rs IH]; [by intros ?%elem_of_nil|]. simpl.
  rewrite elem_of_cons, list_elem_of_filter.
  intros [->|[Hne Hr]].
  - exists 0. cbn. by rewrite decide_True.
  - destruct (IH Hr) as (j & Hj). exists (S j). cbn.
    rewrite decide_False by done. by rewrite Hj.
Qed.

Lemma entries_for_snoc t rs x :
  entries_for t (rs ++ [x])
  = entries_for t rs ++ (if decide (id_of x = t) then entries x else []).
Proof.
  unfold entries_for. rewrite filter_app, flat_map_app, filter_cons.
  by case_decide; simpl; rewrite ?app_nil_r.
Qed.

Lemma entries_for_absent t rs :
  t ∉ id_of <$> rs → entries_for t rs = [].
Proof.
  unfold entries_for. induction rs as [|r rs IH]; [done|].
  rewrite fmap_cons, not_elem_of_cons. intros [Hne Hnotin].
  rewrite filter_cons, decide_False by done. by apply IH.
Qed.

Lemma grouped_records rs :
  Forall tool_result rs → Forall tool_result (grouped rs).
Proof.
  intros Hrs. apply Forall_fmap, Forall_forall. intros r Hr. simpl.
  apply tool_result_with_content.
  eapply Forall_forall; [done|]. by apply firsts_subset.
Qed.

Lemma grouped_ids rs : id_of <$> grouped rs = id_of <$> firsts rs.
Proof.
  unfold grouped. rewrite <- list_fmap_compose. apply list_fmap_ext.
  intros i r _. simpl. apply id_of_with_content.
Qed.

(** One turn of the loop takes the grouping of the records seen to the
    grouping with one record more. *)
Lemma grouped_snoc_seen p x :
  Forall tool_result p → tool_result x → id_of x ∈ id_of <$> p →
  merge_into (JStr (id_of x)) x (grouped p) = Ok (grouped (p ++ [x])).
Proof.
  intros Hp Hx Hin.
  rewrite merge_into_records;
    [|done|by apply grouped_records|rewrite grouped_ids; apply firsts_NoDup].
  f_equal. unfold grouped. rewrite firsts_snoc, decide_True by done.
  rewrite <- list_fmap_compose. apply list_fmap_ext.
  intros i r Hr. simpl.
  assert (tool_result r) as Hrec.
  { eapply Forall_forall; [done|].
    apply firsts_subset. by eapply list_elem_of_lookup_2. }
  rewrite id_of_with_content, entries_for_snoc.
  destruct (decide (id_of r = id_of x)) as [E|Hne].
  - rewrite entries_with_content, with_content_twice by done.
    by rewrite decide_True.
  - rewrite decide_False by done. by rewrite app_nil_r.
Qed.

Lemma grouped_snoc_new p x :
  Forall tool_result p → tool_result x → id_of x ∉ id_of <$> p →
  grouped p ++ [x] = grouped (p ++ [x]).
Proof.
  intros Hp Hx Hnotin. unfold grouped.
  rewrite firsts_snoc, decide_False by done. rewrite fmap_app. f_equal.
  - apply list_fmap_ext. intros i r Hr. simpl.
    rewrite entries_for_snoc, decide_False, app_nil_r; [done|].
    intros E. apply Hnotin. rewrite E. apply firsts_ids.
    apply list_elem_of_fmap_2. by eapply list_elem_of_lookup_2.
  - simpl. rewrite entries_for_snoc, decide_True by done.
    rewrite entries_for_absent by done. simpl.
    by rewrite with_content_same.
Qed.

Lemma merge_loop_grouped rest p :
  Forall tool_result p → Forall tool_result rest →
  merge_loop rest (grouped p) (JStr <$> (id_of <$> firsts p))
  = Ok (grouped (p ++ rest)).
Proof.
  intros Hp Hrest. revert p Hp.
  induction Hrest as [|x rest Hx Hrest IH]; intros p Hp.
  - by rewrite app_nil_r.
  - simpl. rewrite get_tool_use_id by done. simpl.
    rewrite existsb_seen.
    assert (Forall tool_result (p ++ [x])) as Hpx
      by (apply Forall_app; split; [done|by apply Forall_singleton]).
    specialize (IH (p ++ [x]) Hpx).
    rewrite <- app_assoc in IH. simpl in IH.
    rewrite firsts_snoc in IH.
    case_bool_decide as Hseen.
    + rewrite firsts_ids in Hseen.
      rewrite grouped_snoc_seen by done. simpl.
      by rewrite decide_True in IH.
    + rewrite firsts_ids in Hseen.
      rewrite grouped_snoc_new by done.
      rewrite decide_False in IH by done.
      by rewrite !fmap_app in IH.
Qed.

(** C6.  For the tool-result records of the current message, the
    merge gives the grouping by invocation id: the first record of
    each id is kept and takes the content entries of all records of
    its id in their order, and each id of the input occurs once in the
    output.  For example, two records of the id [t1] with the contents
    [[X]] and [[Y]] become one record of [t1] with [[X; Y]]. *)
Theorem tool_results_grouped_by_id (tool_results : list json) :
  Forall tool_result tool_results →
  merge_tool_results tool_results = Ok (grouped tool_results)
  ∧ NoDup (id_of <$> grouped tool_results)
  ∧ (∀ t, t ∈ id_of <$> grouped tool_results
          ↔ t ∈ id_of <$> tool_results)
  ∧ (∀ k r, grouped tool_results !! k = Some r →
       ∃ j first,
         list_find (λ x, id_of x = id_of r) tool_results = Some (j, first)
         ∧ r = with_content (entries_for (id_of r) tool_results) first)
  ∧ (∀ X Y,
       tool_results = [JObj [("toolUseId", JStr "t1"); ("content", JArr [X])];
                       JObj [("toolUseId", JStr "t1"); ("content", JArr [Y])]]
       → merge_tool_results tool_results
         = Ok [JObj [("toolUseId", JStr "t1"); ("content", JArr [X; Y])]]).
Proof.
  intros Hrs. split_and!.
  - unfold merge_tool_results. case_bool_decide as Hne.
    + by apply (merge_loop_grouped tool_results []).
    + by destruct tool_results.
  - rewrite grouped_ids. apply firsts_NoDup.
  - intros t. rewrite grouped_ids. apply firsts_ids.
  - intros k r Hk. unfold grouped in Hk.
    rewrite list_lookup_fmap in Hk.
    destruct (firsts tool_results !! k) as [first|] eqn:Hf; [|done].
    simpl in Hk. injection Hk as <-.
    destruct (firsts_first first tool_results) as (j & Hj);
      [by eapply list_elem_of_lookup_2|].
    exists j, first. by rewrite id_of_with_content.
  - by intros X Y ->.
Qed.

Lemma tool_results_grouped_by_id_witness :
  merge_tool_results
    [record "t1" [JStr "X"]; record "t2" [JStr "Z"]; record "t1" [JStr "Y"]]
  = Ok [record "t1" [JStr "X"; JStr "Y"]; record "t2" [JStr "Z"]].
Proof.
  apply (tool_results_grouped_by_id
           [record "t1" [JStr "X"]; record "t2" [JStr "Z"];
            record "t1" [JStr "Y"]]).
  repeat constructor.
Defined.

End tool_result_facts.

(** * Further properties *)

(** ** The account store *)

Module account_store_facts.
Import py account_manager props props2.

Implicit Types (l : list Account) (acc : Account) (i j : nat).

Lemma load_saved l f :
  load_accounts (save_accounts (mkManager l f))
  = save_accounts (mkManager l f).
Proof. done. Qed.

Lemma list_find_id_fmap (flag : bool) account_id l :
  list_find (λ a, id a = account_id) (set_is_active flag <$> l)
  = prod_map (λ i, i) (set_is_active flag)
      <$> list_find (λ a, id a = account_id) l.
Proof.
  rewrite list_find_fmap. unfold compose. simpl. done.
Qed.

Lemma list_find_id_alter (flag : bool) account_id l k :
  fst <$> list_find (λ a, id a = account_id)
            (alter (set_is_active flag) k l)
  = fst <$> list_find (λ a, id a = account_id) l.
Proof.
  revert k. induction l as [|a l IH]; intros [|k]; try done.
  - cbn. by destruct (decide (id a = account_id)).
  - change (alter (set_is_active flag) (S k) (a :: l))
      with (a :: alter (set_is_active flag) k l).
    cbn. destruct (decide (id a = account_id)); [done|].
    specialize (IH k).
    destruct (list_find _ (alter _ k l)) as [[]|],
             (list_find _ l) as [[]|]; simplify_eq/=; done.
Qed.

(** X1.  An account added under an id that no account in memory has
    is found again under that id, as it was added and at the end of the
    pool; the accounts that were in memory stay as they were, in their
    order, and the whole is written to the file.  A lookup under any
    other id then finds what the list in memory had under it: what
    that lookup found before the account was added, when memory and
    file agreed. *)
Theorem add_then_get (rt ci cs : string) (pa nm : option string)
    (uuid4 now : string) (self : AccountManager) :
  uuid4 ∉ id <$> accounts self →
  let r := add_account rt ci cs pa nm uuid4 now self in
  get_account_by_id uuid4 r.1 = (r.1, Some (length (accounts self), r.2))
  ∧ accounts r.1 = accounts self ++ [r.2]
  ∧ ACCOUNT_FILE r.1 = Records (accounts r.1)
  ∧ is_active r.2 = bool_decide (accounts self = [])
  ∧ (∀ other, other ≠ uuid4 →
       (get_account_by_id other r.1).2
       = list_find (λ a, id a = other) (accounts self))
  ∧ (in_step self →
     ∀ other, other ≠ uuid4 →
       (get_account_by_id other r.1).2 = (get_account_by_id other self).2).
Proof.
  intros Hfresh r.
  assert (∀ other, other ≠ uuid4 →
            (get_account_by_id other r.1).2
            = list_find (λ a, id a = other) (accounts self)) as Hother.
  { subst r. unfold add_account, get_account_by_id.
    cbn [fst snd]. rewrite load_saved. cbn [accounts save_accounts].
    intros other Hne.
    destruct (list_find (λ a, id a = other) (accounts self))
      as [[j y]|] eqn:Hf.
    + by apply list_find_app_l.
    + apply list_find_None. apply list_find_None in Hf.
      apply Forall_app. split; [done|].
      apply Forall_singleton. simpl. congruence. }
  split_and!; try done.
  - subst r. unfold add_account, get_account_by_id.
    cbn [fst snd]. rewrite load_saved. cbn [accounts save_accounts].
    f_equal. apply list_find_Some. split_and!.
    + by rewrite lookup_app_r, Nat.sub_diag.
    + done.
    + intros j y Hj Hlt Hy. apply Hfresh.
      rewrite lookup_app_l in Hj by done.
      rewrite <- Hy. apply list_elem_of_fmap_2.
      by eapply list_elem_of_lookup_2.
  - subst r. simpl. apply bool_decide_ext. by destruct (accounts self).
  - intros Hstep other Hne. rewrite (Hother other Hne).
    unfold get_account_by_id. cbn [snd].
    by rewrite account_manager_facts.loaded_accounts, <- Hstep.
Qed.

Lemma add_then_get_witness :
  let first := add_account "r1" "c1" "s1" None None "u1" "t1"
                 (new_manager Absent) in
  let second := add_account "r2" "c2" "s2" None None "u2" "t2" first.1 in
  (get_account_by_id "u1" first.1).2
  = Some (0, mkAccount "u1" "r1" "c1" "s1" None (Some "账号 1") true "t1")
  ∧ (get_account_by_id "u2" second.1).2 = Some (1, second.2)
  ∧ (get_account_by_id "u1" second.1).2
    = (get_account_by_id "u1" first.1).2.
Proof.
  intros first second.
  pose proof (add_then_get "r1" "c1" "s1" None None "u1" "t1"
                (new_manager Absent)) as H1.
  destruct H1 as (H1 & _); [by intros ?%elem_of_nil|].
  pose proof (add_then_get "r2" "c2" "s2" None None "u2" "t2" first.1)
    as H2.
  destruct H2 as (H2 & _ & _ & _ & _ & Hkept).
  { apply (bool_decide_unpack _). by vm_compute. }
  split_and!.
  - fold first in H1. by rewrite H1.
  - fold second in H2. by rewrite H2.
  - apply Hkept; [reflexivity|discriminate].
Defined.

(** X2.  The two endpoints that take an account id answer 404 exactly
    when no account on file has the id, and then they leave the file
    as it was and the list in memory as the file has it. *)
Theorem unknown_account_is_not_found (account_id : string)
    (manager : AccountManager) :
  let pool := file_records (ACCOUNT_FILE manager) in
  ((main_api.delete_account account_id manager).2 = 404%Z
   ↔ account_id ∉ id <$> pool)
  ∧ ((main_api.activate_account account_id manager).2 = 404%Z
     ↔ account_id ∉ id <$> pool)
  ∧ (account_id ∉ id <$> pool →
     (main_api.delete_account account_id manager).1
     = load_accounts manager
     ∧ (main_api.activate_account account_id manager).1
       = load_accounts manager
     ∧ accounts (load_accounts manager) = pool
     ∧ ACCOUNT_FILE (load_accounts manager) = ACCOUNT_FILE manager).
Proof.
  intros pool.
  assert (accounts (load_accounts manager) = pool) as Hpool
    by (unfold load_accounts, pool; by destruct (ACCOUNT_FILE manager)).
  assert (ACCOUNT_FILE (load_accounts manager) = ACCOUNT_FILE manager)
    as Hfile
    by (unfold load_accounts; by destruct (ACCOUNT_FILE manager)).
  assert (account_id ∉ id <$> pool
          ↔ list_find (λ a, id a = account_id) pool = None) as Hnone.
  { rewrite list_find_None, Forall_forall, list_elem_of_fmap. split.
    - intros Hno a Ha Hid. apply Hno. by exists a.
    - intros Hall (a & -> & Ha). by apply (Hall a Ha). }
  unfold main_api.delete_account, main_api.activate_account,
    delete_account, activate_account, get_account_by_id.
  rewrite Hpool.
  destruct (list_find (λ a, id a = account_id) pool) as [[i a]|] eqn:Hf.
  - rewrite (account_manager_facts.list_remove_found _ _ _ _ Hf).
    cbn [fst snd]. rewrite Hnone.
    split_and!; [split; done|split; done|done].
  - cbn [fst snd]. rewrite Hnone. by split_and!.
Qed.

Lemma unknown_account_is_not_found_witness :
  (main_api.delete_account "nobody" plain_pool).1 = load_accounts plain_pool.
Proof.
  apply (unknown_account_is_not_found "nobody" plain_pool).
  simpl. intros [E|?%elem_of_nil]%elem_of_cons; [discriminate E|done].
Defined.

(** X3.  Deleting an account that is found takes exactly that account
    out: the other accounts stay in their order, unchanged but for the
    flag of the first, the result is on file, and when the ids of the
    pool are distinct no account is found under the id any more. *)
Theorem delete_then_get (account_id : string) (self : AccountManager)
    (i : nat) (account : Account) :
  (get_account_by_id account_id self).2 = Some (i, account) →
  let pool := accounts (load_accounts self) in
  let r := delete_account account_id self in
  r.2 = true
  ∧ ACCOUNT_FILE r.1 = Records (accounts r.1)
  ∧ set_is_active false <$> accounts r.1
    = set_is_active false <$> delete i pool
  ∧ length (accounts r.1) = length pool - 1
  ∧ (NoDup (id <$> pool) → (get_account_by_id account_id r.1).2 = None).
Proof.
  unfold delete_account, get_account_by_id. cbn [fst snd].
  intros Hf. rewrite Hf.
  rewrite (account_manager_facts.list_remove_found _ _ _ _ Hf).
  set (pool := accounts (load_accounts self)) in *.
  set (rest := if _ && _ then _ else _).
  assert (set_is_active false <$> rest
          = set_is_active false <$> delete i pool) as Hrest.
  { subst rest. destruct (_ && _); [|done].
    apply main_facts.flags_alter. }
  apply list_find_Some in Hf as (Hi & Hid & Hfirst).
  cbn [fst snd accounts save_accounts ACCOUNT_FILE].
  split_and!; try done.
  - apply (f_equal length) in Hrest. rewrite !length_fmap in Hrest.
    rewrite Hrest, length_delete; [done|by eexists].
  - intros Hnd. rewrite load_saved. cbn [accounts save_accounts].
    apply list_find_None, Forall_forall. intros a Ha Ha'.
    assert (account_id ∈ id <$> delete i pool) as Hin.
    { assert (id <$> rest = id <$> delete i pool) as <-.
      { apply (f_equal (fmap id)) in Hrest.
        rewrite <- !list_fmap_compose in Hrest. exact Hrest. }
      rewrite <- Ha'. by apply list_elem_of_fmap_2. }
    rewrite <- (take_drop_middle pool i account Hi) in Hnd.
    rewrite fmap_app, fmap_cons in Hnd.
    apply NoDup_app in Hnd as (_ & Hdisj & Hnd).
    apply NoDup_cons in Hnd as [Hnotin _].
    rewrite delete_take_drop, fmap_app, elem_of_app in Hin.
    destruct Hin as [Hin|Hin].
    + apply (Hdisj _ Hin). rewrite Hid. left.
    + apply Hnotin. by rewrite Hid.
Qed.

Lemma delete_then_get_witness :
  (get_account_by_id "u1" (delete_account "u1" plain_pool).1).2 = None.
Proof.
  apply (delete_then_get "u1" plain_pool 0 plain_account eq_refl).
  apply (bool_decide_unpack _). by vm_compute.
Defined.

(** X4.  A request to add, delete or activate whose write goes
    through does what it does on a writable file, and leaves the list
    in memory equal to the list on file, whatever the two were before.
    A request whose write fails raises [OSError] after the list in
    memory was changed: memory holds the changed list and the file
    what the failed write left of it.  A request that finds no account
    under its id writes nothing, and leaves in memory what it read from
    the file. *)
Theorem write_failure_parts_memory_from_file
    (fault : option account_file) (o : op) (self : AccountManager) :
  let r := account_manager_io.step fault o self in
  match fault with
  | None => r = (step self o, Ok ()) ∧ in_step r.1
  | Some remains =>
      if writes o self
      then r = (mkManager (accounts (step self o)) remains, Raise OSError)
      else r = (load_accounts self, Ok ()) ∧ in_step r.1
  end.
Proof.
  assert (∀ s, in_step (load_accounts s)) as Hload.
  { intros s. unfold in_step, load_accounts.
    by destruct (ACCOUNT_FILE s). }
  assert (∀ account_id,
            bool_decide
              (account_id ∈ id <$> file_records (ACCOUNT_FILE self))
            = bool_decide
                (is_Some (list_find (λ a, id a = account_id)
                            (accounts (load_accounts self))))) as Hfound.
  { intros account_id. apply bool_decide_ext.
    rewrite account_manager_facts.loaded_accounts.
    rewrite list_elem_of_fmap. split.
    - intros (a & Ha & Hin).
      by eapply (list_find_elem_of (λ a, id a = account_id) _ a).
    - intros [[j y] Hj]. apply list_find_Some in Hj as (Hj & Hy & _).
      exists y. split; [done|]. by eapply list_elem_of_lookup_2. }
  intros r. subst r.
  destruct o as [rt ci cs pa nm u t|account_id|account_id];
    unfold writes; rewrite ?Hfound;
    unfold account_manager_io.step, step.
  - unfold account_manager_io.add_account, add_account,
      account_manager_io.save_accounts, main.on_accounts,
      mbind, M_bind, and_then, gets, modify, mret, M_ret, ret.
    cbn [fst snd accounts ACCOUNT_FILE save_accounts].
    by destruct fault.
  - unfold account_manager_io.delete_account, delete_account,
      main.find_account, get_account_by_id,
      account_manager_io.save_accounts, main.on_accounts,
      mbind, M_bind, and_then, gets, modify, mret, M_ret, ret, raise.
    destruct (list_find _ (accounts (load_accounts self)))
      as [[i a]|] eqn:Hf.
    + rewrite (account_manager_facts.list_remove_found _ _ _ _ Hf).
      rewrite bool_decide_eq_true_2 by done.
      cbn [fst snd accounts ACCOUNT_FILE].
      destruct (is_active a && bool_decide (delete i _ ≠ []));
        cbn [fst snd accounts ACCOUNT_FILE save_accounts];
        by destruct fault.
    + rewrite bool_decide_eq_false_2 by (by intros [? ?]).
      destruct fault; split; try done; apply Hload.
  - unfold account_manager_io.activate_account, activate_account,
      main.find_account, get_account_by_id,
      account_manager_io.save_accounts, main.on_accounts,
      mbind, M_bind, and_then, gets, modify, mret, M_ret, ret.
    destruct (list_find _ (accounts (load_accounts self)))
      as [[i a]|] eqn:Hf.
    + rewrite bool_decide_eq_true_2 by done.
      cbn [fst snd accounts ACCOUNT_FILE save_accounts].
      by destruct fault.
    + rewrite bool_decide_eq_false_2 by (by intros [? ?]).
      destruct fault; split; try done; apply Hload.
Qed.

(** X5.  Activating the same account twice is the same as activating
    it once; and in a pool with one active account, activating the
    account that is active already leaves every account as it is. *)
Theorem activate_is_idempotent (account_id : string)
    (self : AccountManager) :
  activate_account account_id (activate_account account_id self).1
  = activate_account account_id self
  ∧ (manager_ok self →
     ∀ i account,
       (get_account_by_id account_id self).2 = Some (i, account) →
       is_active account = true →
       accounts (activate_account account_id self).1
       = accounts (load_accounts self)).
Proof.
  split.
  - unfold activate_account, get_account_by_id. cbn [fst snd].
    destruct (list_find _ (accounts (load_accounts self)))
      as [[i a]|] eqn:Hf; cbn [fst snd].
    + rewrite load_saved. cbn [accounts save_accounts].
      pose proof (list_find_id_alter true account_id
                    (set_is_active false <$> accounts (load_accounts self))
                    i) as Hidx.
      rewrite list_find_id_fmap, Hf in Hidx. simpl in Hidx.
      destruct (list_find _ (alter _ i _)) as [[i' a']|]; [|done].
      simpl in Hidx. injection Hidx as ->.
      unfold save_accounts. simpl. do 2 f_equal.
      * rewrite main_facts.flags_alter, main_facts.flags_fmap. done.
      * rewrite main_facts.flags_alter, main_facts.flags_fmap. done.
    + assert (load_accounts (load_accounts self) = load_accounts self)
        as -> by (unfold load_accounts; by destruct (ACCOUNT_FILE self)).
      by rewrite Hf.
  - intros Hok i account Hf Hact. apply list_eq. intros j.
    rewrite (account_manager_facts.activate_account_found _ _ _ _ Hf).
    apply account_manager_facts.pool_ok_loaded in Hok as [Hok _].
    cbn [snd get_account_by_id] in Hf.
    apply list_find_Some in Hf as (Hi & _).
    set (pool := accounts (load_accounts self)) in *.
    destruct (pool !! j) as [a|] eqn:Hj; [|done]. simpl. f_equal.
    apply account_manager_facts.set_is_active_same.
    assert (pool ≠ []) as Hne by (intros E; by rewrite E in Hi).
    specialize (Hok Hne).
    destruct (decide (j = i)) as [->|Hji].
    + rewrite bool_decide_eq_true_2 by done. congruence.
    + rewrite bool_decide_eq_false_2 by done.
      destruct (is_active a) eqn:Ha; [|done]. exfalso.
      revert Hok Hi Hj Hact Ha Hji. clear. revert i j.
      induction pool as [|b pool IH]; intros i j Hc Hi Hj Hact Ha Hji;
        [done|].
      rewrite account_manager_facts.active_count_cons in Hc.
      destruct i as [|i], j as [|j]; simplify_eq/=.
      * rewrite Hact in Hc.
        assert (active_count pool = 0) as Hz by lia.
        pose proof (account_manager_facts.active_count_zero pool a Hz
                      (list_elem_of_lookup_2 _ _ _ Hj)). congruence.
      * rewrite Ha in Hc.
        assert (active_count pool = 0) as Hz by lia.
        pose proof (account_manager_facts.active_count_zero pool account
                      Hz (list_elem_of_lookup_2 _ _ _ Hi)). congruence.
      * destruct (is_active b); [|eapply (IH i j); eauto; lia].
        assert (active_count pool = 0) as Hz by lia.
        pose proof (account_manager_facts.active_count_zero pool a Hz
                      (list_elem_of_lookup_2 _ _ _ Hj)). congruence.
Qed.

Lemma activate_is_idempotent_witness :
  accounts (activate_account "u1" plain_pool).1
  = accounts (load_accounts plain_pool).
Proof.
  apply (proj2 (activate_is_idempotent "u1" plain_pool))
    with (i := 0) (account := plain_account); try reflexivity.
  split; [intros H; by destruct H|intros _; reflexivity].
Defined.

(** X6.  [get_active_account] answers from the file: nothing exactly
    when the pool is empty; otherwise the first account flagged
    active, or, if none is flagged, the first account of the pool. *)
Theorem active_account_or_first (self : AccountManager) :
  let pool := file_records (ACCOUNT_FILE self) in
  let r := (get_active_account self).2 in
  (r = None ↔ pool = [])
  ∧ ∀ i account, r = Some (i, account) →
      pool !! i = Some account
      ∧ (∀ j acc, pool !! j = Some acc → j < i → is_active acc = false)
      ∧ (is_active account = true
         ∨ (i = 0 ∧ ∀ acc, acc ∈ pool → is_active acc = false)).
Proof.
  intros pool r. subst r.
  assert (accounts (load_accounts self) = pool) as Hpool
    by (unfold load_accounts, pool; by destruct (ACCOUNT_FILE self)).
  unfold get_active_account. rewrite Hpool.
  destruct (list_find (λ acc, is_active acc = true) pool)
    as [[k a]|] eqn:Hf; cbn [snd].
  - apply list_find_Some in Hf as (Hk & Ha & Hfirst). split.
    + split; [done|]. intros E. by rewrite E in Hk.
    + intros i account [= <- <-]. split_and!; [done| |by left].
      intros j acc Hj Hlt. specialize (Hfirst j acc Hj Hlt).
      by destruct (is_active acc).
  - apply list_find_None in Hf. split.
    + destruct pool; simpl; split; done.
    + intros i account Hr. destruct pool as [|b pool']; [done|].
      simpl in Hr. injection Hr as <- <-. split_and!; [done| |].
      * intros j acc _ Hlt. lia.
      * right. split; [done|]. intros acc Hacc.
        apply (proj1 (Forall_forall _ _) Hf) in Hacc.
        by destruct (is_active acc).
Qed.

Lemma active_account_or_first_witness :
  (get_active_account plain_pool).2 = Some (0, plain_account)
  ∧ is_active plain_account = true.
Proof.
  split; [reflexivity|].
  destruct (proj2 (active_account_or_first plain_pool) 0 plain_account
              eq_refl) as (_ & _ & [H|[_ H]]); [exact H|].
  reflexivity.
Defined.

End account_store_facts.

(** ** The listing, the bulk report and the manual refresh *)

Module refresh_report_facts.
Import py account_manager main props props2.

#[local] Abbreviation chars := list_ascii_of_string.

Lemma slices_of_shown p q :
  String.length p = 10 → String.length q = 4 →
  slice_to 10 (p +:+ "..." +:+ q) = p
  ∧ slice_last 4 (p +:+ "..." +:+ q) = q
  ∧ String.length (p +:+ "..." +:+ q) = 17.
Proof.
  intros Hp Hq.
  assert (String.length (p +:+ "..." +:+ q) = 17) as Hlen.
  { rewrite !listing_facts.length_chars, !listing_facts.chars_append,
      !length_app, <- !listing_facts.length_chars, Hp, Hq. done. }
  rewrite listing_facts.length_chars in Hp, Hq.
  split_and!; [| |done].
  - apply listing_facts.chars_inj. unfold slice_to.
    rewrite listing_facts.chars_substring, drop_0,
      !listing_facts.chars_append.
    by apply take_app_length'.
  - apply listing_facts.chars_inj. unfold slice_last.
    rewrite listing_facts.chars_substring, Hlen,
      !listing_facts.chars_append.
    change (17 - 4) with 13. rewrite app_assoc.
    rewrite drop_app_length' by (rewrite length_app, Hp; done).
    by apply take_ge; rewrite Hq.
Qed.

Lemma redact_twice acc : redact (redact acc) = redact acc.
Proof.
  unfold redact at 1 3. cbn [refresh_token client_secret id client_id
    profile_arn name is_active created_at].
  f_equal.
  - unfold redact. cbn [refresh_token].
    destruct (str_truthy (refresh_token acc)) eqn:Ht; [|by rewrite Ht].
    case_bool_decide as Hlen; [|done].
    destruct (listing_facts.long_credential_shown _ Hlen)
      as (p & m & q & _ & Hp & Hq & ->).
    destruct (slices_of_shown p q Hp Hq) as (-> & -> & Hl).
    rewrite bool_decide_eq_true_2 by lia.
    destruct (p +:+ "..." +:+ q); [simpl in Hl; lia|done].
  - unfold redact. cbn [client_secret].
    by destruct (str_truthy (client_secret acc)) eqn:Ht; rewrite ?Ht.
Qed.

(** X7.  The listing is stable: redacting its entries again changes
    nothing, asking for it again gives the same entries, it leaves the
    file as it is, and it shows the id, client id, profile, name,
    active flag and creation time of every account on file, in
    order. *)
Theorem listing_is_stable (self : AccountManager) :
  let r := get_all_accounts self in
  redact <$> r.2 = r.2
  ∧ get_all_accounts r.1 = r
  ∧ ACCOUNT_FILE r.1 = ACCOUNT_FILE self
  ∧ (λ a, (id a, client_id a, profile_arn a, name a, is_active a,
           created_at a)) <$> r.2
    = (λ a, (id a, client_id a, profile_arn a, name a, is_active a,
             created_at a)) <$> file_records (ACCOUNT_FILE self).
Proof.
  unfold get_all_accounts. cbn [fst snd].
  assert (load_accounts (load_accounts self) = load_accounts self) as Hl
    by (unfold load_accounts; by destruct (ACCOUNT_FILE self)).
  split_and!.
  - rewrite <- list_fmap_compose. apply list_fmap_ext.
    intros i a _. apply redact_twice.
  - by rewrite Hl.
  - unfold load_accounts. by destruct (ACCOUNT_FILE self).
  - rewrite <- list_fmap_compose.
    unfold load_accounts. by destruct (ACCOUNT_FILE self).
Qed.

Section bulk.
Variable refresh_token : nat → list Account → result bool.
Variable mgr : AccountManager.

Lemma line_of_flag (flag : bool) a :
  line_of (set_is_active flag a) = line_of a.
Proof. done. Qed.

Lemma bulk_inv_lookup b i a :
  bulk_inv mgr b → accounts (manager b) !! i = Some a →
  ∃ a0, accounts mgr !! i = Some a0 ∧ line_of a = line_of a0.
Proof.
  intros (_ & Hflags & _) Hi.
  apply (f_equal (λ l, l !! i)) in Hflags.
  rewrite !list_lookup_fmap, Hi in Hflags.
  destruct (accounts mgr !! i) as [a0|]; [|done].
  exists a0. split; [done|].
  apply (f_equal (fmap line_of)) in Hflags.
  change (Some (line_of a) = Some (line_of a0)) in Hflags.
  by apply (inj Some).
Qed.

Lemma refresh_one_line i account b :
  bulk_inv mgr b →
  wp (refresh_one refresh_token i account)
     (λ _ b', bulk_inv mgr b'
              ∧ results b' = results b ++ [line_of account]
              ∧ failed_count b' = failed_count b + 1)
     (λ _ _, False) b.
Proof.
  intros Hb. unfold refresh_one, line_of. apply main_facts.wp_try.
  destruct (incomplete account).
  - apply main_facts.wp_modify. split_and!; [|done|done].
    apply main_facts.bulk_inv_count_failed; auto.
  - apply main_facts.wp_bind, main_facts.wp_modify,
      main_facts.wp_bind, main_facts.wp_modify.
    apply main_facts.wp_try, main_facts.wp_bind, main_facts.wp_gets,
      main_facts.wp_bind, main_facts.wp_lift.
    set (b1 := mkBulk _ _ _ _).
    assert (bulk_inv mgr b1) as Hb1.
    { destruct Hb as (? & Ha & ? & ?). split_and!; simpl; try done.
      by rewrite main_facts.flags_alter, main_facts.flags_fmap. }
    assert (wp (update_refresh_status (id account) "failed";;
                count_failed account "failed")
              (λ _ b', bulk_inv mgr b'
                       ∧ results b' = results b
                           ++ [mkOutcome (id account)
                                 (account_manager.name account) "error"]
                       ∧ failed_count b' = failed_count b + 1)
              (λ _ b', wp (count_failed account "error")
                         (λ _ b', bulk_inv mgr b'
                            ∧ results b' = results b
                                ++ [mkOutcome (id account)
                                      (account_manager.name account)
                                      "error"]
                            ∧ failed_count b' = failed_count b + 1)
                         (λ _ _, False) b')
              b1) as Hfail.
    { apply main_facts.wp_bind, main_facts.wp_update_refresh_status,
        main_facts.wp_modify.
      split_and!; [|done|done].
      apply main_facts.bulk_inv_count_failed; auto. }
    destruct (refresh_token i _) as [ok|e]; simpl.
    + apply main_facts.wp_bind, main_facts.wp_update_refresh_status.
      by apply Hfail.
    + by apply Hfail.
Qed.

Lemma refresh_each_lines n k b :
  k + n ≤ length (accounts mgr) → bulk_inv mgr b →
  wp (refresh_each refresh_token (seq k n))
     (λ _ b', bulk_inv mgr b'
              ∧ results b'
                = results b ++ (line_of <$> take n (drop k (accounts mgr)))
              ∧ failed_count b' = failed_count b + n)
     (λ _ _, False) b.
Proof.
  revert k b. induction n as [|n IH]; intros k b Hk Hb.
  - cbn [seq refresh_each]. apply main_facts.wp_ret.
    rewrite take_0, fmap_nil, app_nil_r. split_and!; [done|done|lia].
  - cbn [seq refresh_each]. apply main_facts.wp_bind, main_facts.wp_gets.
    assert (is_Some (accounts (manager b) !! k)) as [a Ha].
    { apply lookup_lt_is_Some. destruct Hb as (_ & Hflags & _).
      apply (f_equal length) in Hflags. rewrite !length_fmap in Hflags.
      lia. }
    rewrite Ha.
    destruct (bulk_inv_lookup b k a Hb Ha) as (a0 & Ha0 & Hline).
    apply main_facts.wp_bind.
    eapply main_facts.wp_mono; [by apply refresh_one_line| |done].
    intros u b' (Hb' & Hres & Hcount).
    eapply main_facts.wp_mono; [apply (IH (S k) b'); [lia|done]| |done].
    intros u' b'' (Hb'' & Hres' & Hcount').
    split_and!; [done| |lia].
    rewrite Hres', Hres, <- app_assoc. f_equal.
    rewrite (drop_S _ _ _ Ha0). simpl. by rewrite Hline.
Qed.

(** X8.  The bulk refresh of a pool that is not empty answers 200
    with one line of the report for every account, in the order of
    the pool: an account without one of its three secrets is
    [skipped], every other account counts as failed, none as a
    success.  For an empty pool it answers 400 and reports
    nothing. *)
Theorem bulk_report_lists_every_account :
  let r := refresh_all_accounts refresh_token mgr in
  if bool_decide (accounts mgr = [])
  then r = (mkBulk mgr 0 0 [], 400%Z)
  else r.2 = 200%Z
       ∧ results r.1 = line_of <$> accounts mgr
       ∧ success_count r.1 = 0
       ∧ failed_count r.1 = length (accounts mgr).
Proof.
  unfold refresh_all_accounts. case_bool_decide as Hempty; [done|].
  set (old := _ <$> list_find _ _).
  set (m := refresh_each _ _ ≫= _).
  assert (wp m (λ _ b, results b = line_of <$> accounts mgr
                       ∧ success_count b = 0
                       ∧ failed_count b = length (accounts mgr))
             (λ _ _, False) (mkBulk mgr 0 0 [])) as Hwp.
  { apply main_facts.wp_bind.
    eapply main_facts.wp_mono;
      [apply (refresh_each_lines (length (accounts mgr)) 0);
       [done|by split_and!]| |done].
    intros u b (Hb & Hres & Hcount). apply main_facts.wp_modify.
    simpl. rewrite Hres, drop_0, firstn_all. simpl.
    split_and!; [done|apply Hb|done]. }
  unfold wp in Hwp. destruct (m _) as [b [u|e]]; [|done]. simpl.
  by destruct Hwp as (? & ? & ?).
Qed.
End bulk.

Section manual.
Variable refresh_token : nat → list Account → result bool.

(** X9.  The manual refresh answers 404 when no account on file has
    the id, 400 when the first account on file with the id lacks one
    of its three secrets, and 500 in every other case, whatever the
    renewal does: it never answers 200.  It leaves the file as it
    was. *)
Theorem manual_refresh_outcome (account_id : string)
    (mgr : AccountManager) :
  let pool := file_records (ACCOUNT_FILE mgr) in
  let r := refresh_account_token refresh_token account_id mgr in
  ACCOUNT_FILE r.1 = ACCOUNT_FILE mgr
  ∧ r.2 = match list_find (λ a, id a = account_id) pool with
          | None => 404%Z
          | Some (_, account) =>
              if incomplete account then 400%Z else 500%Z
          end
  ∧ (r.2 = 404%Z ↔ account_id ∉ id <$> pool)
  ∧ r.2 ≠ 200%Z.
Proof.
  intros pool r.
  assert (accounts (load_accounts mgr) = pool) as Hpool
    by (unfold load_accounts, pool; by destruct (ACCOUNT_FILE mgr)).
  pose proof (main_facts.refresh_account_token_effect refresh_token
                account_id mgr) as Heff.
  cbv zeta in Heff. fold r in Heff.
  destruct Heff as (Hfile & Hcode & Hfound).
  assert (account_id ∉ id <$> pool
          ↔ list_find (λ a, id a = account_id) pool = None) as Hnone.
  { rewrite list_find_None, Forall_forall, list_elem_of_fmap. split.
    - intros Hno a Ha Hid. apply Hno. by exists a.
    - intros Hall (a & -> & Ha). by apply (Hall a Ha). }
  assert (r.2 = match list_find (λ a, id a = account_id) pool with
                | None => 404%Z
                | Some (_, account) =>
                    if incomplete account then 400%Z else 500%Z
                end) as Hstatus.
  { destruct (list_find (λ a, id a = account_id) pool)
      as [[i a]|] eqn:Hf.
    - destruct (incomplete a) eqn:Hi.
      + subst r. unfold refresh_account_token, get_account_by_id.
        by rewrite Hpool, Hf, Hi.
      + specialize (Hfound i a).
        unfold get_account_by_id in Hfound. cbn [snd] in Hfound.
        rewrite Hpool in Hfound. by apply Hfound.
    - subst r. unfold refresh_account_token, get_account_by_id.
      by rewrite Hpool, Hf. }
  split_and!; [done|done| |].
  - rewrite Hstatus, Hnone.
    destruct (list_find _ pool) as [[i a]|]; [|done].
    by destruct (incomplete a).
  - rewrite Hstatus.
    destruct (list_find _ pool) as [[i a]|]; [|done].
    by destruct (incomplete a).
Qed.
End manual.

End refresh_report_facts.

(** ** More on the OpenAI stream *)

Module stream_more_facts.
Import py main props props2.

#[local] Abbreviation chars := list_ascii_of_string.

Lemma split_lines_plain s : no_line_feed s → split_lines s = [s].
Proof.
  unfold no_line_feed. induction s as [|c s IH]; [done|]. simpl.
  rewrite not_elem_of_cons. intros [Hc Hs].
  rewrite bool_decide_eq_false_2 by done. by rewrite IH.
Qed.

Lemma split_lines_line s rest :
  no_line_feed s →
  split_lines (s +:+ String "010" rest) = s :: split_lines rest.
Proof.
  unfold no_line_feed. induction s as [|c s IH]; [done|]. simpl.
  rewrite not_elem_of_cons. intros [Hc Hs].
  rewrite bool_decide_eq_false_2 by done. by rewrite IH.
Qed.

Lemma no_line_feed_append a b :
  no_line_feed a → no_line_feed b → no_line_feed (a +:+ b).
Proof.
  unfold no_line_feed. rewrite listing_facts.chars_append, elem_of_app.
  tauto.
Qed.

Lemma substring_whole s : String.substring 0 (String.length s) s = s.
Proof. induction s as [|c s IH]; [done|]. simpl. by rewrite IH. Qed.

Lemma append_assoc a b c : (a +:+ b) +:+ c = a +:+ b +:+ c.
Proof.
  induction a as [|x a IH]; [done|].
  change (String x ((a +:+ b) +:+ c) = String x (a +:+ b +:+ c)).
  by f_equal.
Qed.

Lemma no_line_feed_literal (p s : string) :
  bool_decide (no_line_feed p) = true → no_line_feed s →
  no_line_feed (p +:+ s).
Proof.
  intros Hp%bool_decide_eq_true_1 Hs. by apply no_line_feed_append.
Qed.

Lemma startswith_append p s : startswith p (p +:+ s) = true.
Proof.
  unfold startswith. induction p as [|c p IH]; [by destruct s|].
  simpl. destruct (Ascii.ascii_dec c c); [exact IH|done].
Qed.

Lemma slice_from_append p s : slice_from (String.length p) (p +:+ s) = s.
Proof.
  unfold slice_from. induction p as [|c p IH].
  - simpl. by rewrite Nat.sub_0_r, substring_whole.
  - exact IH.
Qed.

Section stream.
Variable json_loads : string → option json.
Variables (stream_id model : string) (created : Z).

#[local] Abbreviation decode := (main.decode json_loads).
#[local] Abbreviation role := (role_chunk stream_id model created).
#[local] Abbreviation on_event := (main.on_event stream_id model created).
#[local] Abbreviation on_events :=
  (props2.on_events stream_id model created).
#[local] Abbreviation on_blocks :=
  (main.on_blocks json_loads stream_id model created).
#[local] Abbreviation openai_stream :=
  (main.openai_stream json_loads stream_id model created).
#[local] Abbreviation events := (props.events json_loads).
#[local] Abbreviation role_prefix :=
  (props.role_prefix stream_id model created).
#[local] Abbreviation chunks_of_event :=
  (props.chunks_of_event stream_id model created).

(** X10.  A block written as [event: <type>], [data: <json>] and an
    empty line is read back: when neither part has a line feed the
    scan gives the two parts stripped, and the block decodes to what
    [json.loads] makes of the stripped data, or to nothing when there
    is no data. *)
Theorem block_is_read_back (event data : string) :
  no_line_feed event → no_line_feed data →
  scan_lines (block event data) = (Some (strip event), Some (strip data))
  ∧ decode (block event data)
    = if str_truthy (strip data) then json_loads (strip data) else None.
Proof.
  intros He Hd.
  assert (scan_lines (block event data)
          = (Some (strip event), Some (strip data))) as Hscan.
  { unfold scan_lines, block.
    rewrite <- (append_assoc "event: " event).
    rewrite split_lines_line by (by apply no_line_feed_literal).
    rewrite <- (append_assoc "data: " data).
    rewrite split_lines_line by (by apply no_line_feed_literal).
    change (split_lines (String "010" "")) with ["";""].
    cbn [foldl].
    rewrite (startswith_append "event: " event).
    change 7 with (String.length "event: ").
    rewrite (slice_from_append "event: " event).
    change (startswith "event: " ("data: " +:+ data)) with false.
    cbv beta iota.
    rewrite (startswith_append "data: " data).
    change 6 with (String.length "data: ").
    by rewrite (slice_from_append "data: " data). }
  split; [done|].
  unfold main.decode. by rewrite Hscan.
Qed.

Lemma on_blocks_events blocks :
  on_blocks blocks = on_events (events blocks).
Proof.
  induction blocks as [|b blocks IH]; [done|].
  unfold props.events in *. simpl.
  destruct (main.decode json_loads b); simpl; by rewrite IH.
Qed.

Lemma on_events_app evs1 evs2 g :
  on_events (evs1 ++ evs2) g
  = match on_events evs1 g with
    | (g', Ok _) => on_events evs2 g'
    | (g', Raise e) => (g', Raise e)
    end.
Proof.
  revert g. induction evs1 as [|ev evs1 IH]; intros g; [done|].
  simpl. unfold mbind, M_bind, and_then.
  destruct (main.on_event _ _ _ ev g) as [g1 [u|e]]; [apply IH|done].
Qed.

Lemma events_app b1 b2 : events (b1 ++ b2) = events b1 ++ events b2.
Proof. apply omap_app. Qed.

Lemma gen_inv_yield c g :
  gen_inv g → is_role c = false → is_done c = false →
  gen_inv (mkGen (role_sent g) (yielded g ++ [c])).
Proof.
  intros [Hr Hd] Hc Hc'. unfold gen_inv. simpl.
  rewrite !stream_facts.count_app, Hr, Hd.
  unfold count. simpl. rewrite Hc, Hc'. simpl. split; lia.
Qed.

Lemma on_event_inv ev g :
  gen_inv g →
  wp (on_event ev) (λ _ g', gen_inv g')
     (λ e g', (e = AttributeError ∨ e = TypeError) ∧ gen_inv g') g.
Proof.
  intros Hg. unfold main.on_event.
  apply main_facts.wp_bind, main_facts.wp_lift.
  destruct (get ev "type" JNull) as [event_type|e] eqn:Hget;
    [|destruct ev; simplify_eq/=; by auto].
  apply main_facts.wp_bind, main_facts.wp_gets, main_facts.wp_bind.
  assert (∀ g1, gen_inv g1 →
            wp (if py_eq event_type (JStr "content_block_delta")
                then delta ← lift (get ev "delta" (JObj []));
                     text ← lift (get delta "text" (JStr ""));
                     if truthy text
                     then lift (slice 50 text);;
                          yield (content_chunk stream_id model created
                                   text)
                     else mret ()
                else if py_eq event_type (JStr "message_stop")
                     then yield (finish_chunk stream_id model created)
                     else mret ())
               (λ _ g', gen_inv g')
               (λ e g', (e = AttributeError ∨ e = TypeError)
                        ∧ gen_inv g') g1) as Hrest.
  { intros g1 Hg1.
    destruct (py_eq event_type (JStr "content_block_delta")).
    - apply main_facts.wp_bind, main_facts.wp_lift.
      destruct (get ev "delta" (JObj [])) as [delta|e] eqn:Hd;
        [|destruct ev; simplify_eq/=; by auto].
      apply main_facts.wp_bind, main_facts.wp_lift.
      destruct (get delta "text" (JStr "")) as [text|e] eqn:Ht;
        [|destruct delta; simplify_eq/=; by auto].
      destruct (truthy text); [|done].
      apply main_facts.wp_bind, main_facts.wp_lift.
      destruct (slice 50 text) as [shown|e] eqn:Hs;
        [|destruct text; simplify_eq/=; by auto].
      apply main_facts.wp_modify. by apply gen_inv_yield.
    - destruct (py_eq event_type (JStr "message_stop")); [|done].
      apply main_facts.wp_modify. by apply gen_inv_yield. }
  destruct (role_sent g) eqn:Hsent; cbn [negb].
  - apply main_facts.wp_ret. by apply Hrest.
  - apply main_facts.wp_bind, main_facts.wp_modify,
      main_facts.wp_modify.
    apply Hrest. destruct Hg as [Hr Hd]. rewrite Hsent in Hr.
    unfold gen_inv. cbn [role_sent yielded].
    rewrite !stream_facts.count_app, Hr, Hd. done.
Qed.

Lemma on_events_inv evs g :
  gen_inv g →
  wp (on_events evs) (λ _ g', gen_inv g')
     (λ e g', (e = AttributeError ∨ e = TypeError) ∧ gen_inv g') g.
Proof.
  revert g. induction evs as [|ev evs IH]; intros g Hg; [done|].
  simpl. apply main_facts.wp_bind.
  eapply main_facts.wp_mono; [by apply on_event_inv| |done].
  intros u g' Hg'. by apply IH.
Qed.

(** An event that the generator gets past is well typed. *)
Lemma on_event_ok ev g g' u :
  on_event ev g = (g', Ok u) → stream_event ev.
Proof.
  destruct ev as [| | | | |members]; try done.
  unfold stream_event. cbn [has_type].
  unfold main.on_event, mbind, M_bind, and_then, lift, gets, yield,
    modify, get, mret, M_ret, ret.
  rewrite !stream_facts.py_eq_tag.
  destruct (lookup_key "type" members) as [[| | |t| |]|]; try done.
  cbn [default_or].
  destruct (String.eqb t "content_block_delta"); [|done].
  destruct (lookup_key "delta" members) as [[| | | | |delta]|];
    cbn [default_or]; try done;
    try (by destruct (negb (role_sent g))).
  unfold stream_text.
  destruct (lookup_key "text" delta) as [text|]; [|done].
  cbn [default_or].
  destruct text as [|b|n|t'|items|ms]; try done;
    destruct (truthy _) eqn:Htext; try done;
    by destruct (negb (role_sent g)).
Qed.

Lemma on_events_ok evs g g' u :
  on_events evs g = (g', Ok u) → Forall stream_event evs.
Proof.
  revert g. induction evs as [|ev evs IH]; intros g; [done|].
  simpl. unfold mbind, M_bind, and_then.
  destruct (main.on_event _ _ _ ev g) as [g1 [[]|e]] eqn:Hev; [|done].
  intros Hrest. constructor; [by eapply on_event_ok|by eapply IH].
Qed.

(** X11.  Whatever the blocks decode to, the generator yields at most
    one role chunk.  It ends without an exception exactly when every
    event is well typed, and then the last thing yielded is [DONE]
    and nothing before it is.  Otherwise it ends with an
    [AttributeError] or a [TypeError], and no [DONE] was yielded. *)
Theorem stream_ends_with_done_or_raises (blocks : list string) :
  let out := openai_stream blocks in
  count is_role out.1 ≤ 1
  ∧ match out.2 with
    | None =>
        Forall stream_event (events blocks)
        ∧ ∃ body, out.1 = body ++ [DONE] ∧ count is_done body = 0
    | Some e =>
        ¬ Forall stream_event (events blocks)
        ∧ (e = AttributeError ∨ e = TypeError)
        ∧ count is_done out.1 = 0
    end.
Proof.
  pose proof (stream_facts.openai_stream_typed json_loads stream_id
                model created blocks) as Htyped.
  revert Htyped.
  unfold main.openai_stream, mbind, M_bind, and_then.
  rewrite on_blocks_events.
  pose proof (on_events_inv (events blocks) (mkGen false [])) as Hwp.
  unfold wp in Hwp.
  destruct (props2.on_events _ _ _ _ _) as [g [u|e]] eqn:Hrun;
    cbn [fst snd]; intros Htyped.
  - destruct Hwp as [Hr Hd]; [done|]. simpl. split.
    + rewrite stream_facts.count_app, Hr.
      change (count is_role [DONE]) with 0. destruct (role_sent g); lia.
    + split; [by eapply on_events_ok|]. by exists (yielded g).
  - destruct Hwp as (He & Hr & Hd); [done|]. split_and!; [|by intros H%Htyped|done|done].
    rewrite Hr. destruct (role_sent g); lia.
Qed.

(** X12.  An event that is JSON but not an object ends the stream on
    the spot: after well-typed events, what they gave is all that is
    yielded, with an [AttributeError] and without [DONE], whatever
    blocks follow. *)
Theorem stream_stops_at_non_object (pre : list string) (b : string)
    (rest : list string) (v : json) :
  Forall stream_event (events pre) →
  decode b = Some v → (∀ members, v ≠ JObj members) →
  openai_stream (pre ++ b :: rest)
  = (role_prefix false (events pre)
       ++ flat_map chunks_of_event (events pre), Some AttributeError).
Proof.
  intros Hpre Hb Hv.
  unfold main.openai_stream, mbind, M_bind, and_then.
  rewrite on_blocks_events, events_app, on_events_app.
  rewrite <- on_blocks_events, stream_facts.on_blocks_typed by done.
  unfold props.events at 1. simpl. rewrite Hb. simpl.
  unfold mbind, M_bind, and_then.
  assert (main.on_event stream_id model created v
          = λ g, (g, Raise AttributeError)) as ->.
  { destruct v as [| | | | |members]; try done. by destruct (Hv members). }
  done.
Qed.

(** X26.  A [content_block_delta] whose text is a number other than
    0, [true] or a dict with members ends the stream with a
    [TypeError]: after well-typed events the role chunk and what
    those events gave is all that is yielded, without a content chunk
    for the text and without [DONE], whatever blocks follow. *)
Theorem stream_stops_at_text_without_slice (pre : list string)
    (b : string) (rest : list string)
    (members delta : list (string * json)) (text : json) :
  Forall stream_event (events pre) →
  decode b = Some (JObj members) →
  lookup_key "type" members = Some (JStr "content_block_delta") →
  lookup_key "delta" members = Some (JObj delta) →
  lookup_key "text" delta = Some text →
  truthy text = true →
  (∀ s, text ≠ JStr s) → (∀ items, text ≠ JArr items) →
  openai_stream (pre ++ b :: rest)
  = (role :: flat_map chunks_of_event (events pre), Some TypeError).
Proof.
  intros Hpre Hb Htype Hdelta Htext Htruthy Hstr Harr.
  unfold main.openai_stream, mbind, M_bind, and_then.
  rewrite on_blocks_events, events_app, on_events_app.
  rewrite <- on_blocks_events, stream_facts.on_blocks_typed by done.
  unfold props.events at 1. simpl. rewrite Hb. simpl.
  unfold mbind, M_bind, and_then.
  assert (slice 50 text = Raise TypeError) as Hslice.
  { destruct text as [|b'|n|t'|items|ms]; try done.
    - by destruct (Hstr t').
    - by destruct (Harr items). }
  unfold main.on_event, mbind, M_bind, and_then, lift, gets, yield,
    modify, get, mret, M_ret, ret.
  rewrite Htype, Hdelta. cbn [default_or py_eq String.eqb role_sent].
  change (String.eqb "content_block_delta" "content_block_delta")
    with true. cbv beta iota.
  rewrite Htext. cbn [default_or]. rewrite Htruthy, Hslice.
  by destruct (events pre) as [|ev evs].
Qed.

(** X13.  The generator is incremental: what it yields for the first
    blocks of a stream is the beginning of what it yields for the
    whole stream, and once it has raised, later blocks add nothing. *)
Theorem stream_is_incremental (blocks1 blocks2 : list string) :
  ∃ body tail,
    (openai_stream blocks1).1
    = body ++ (if (openai_stream blocks1).2 is None then [DONE] else [])
    ∧ (openai_stream (blocks1 ++ blocks2)).1 = body ++ tail
    ∧ (if (openai_stream blocks1).2 is None then True
       else openai_stream (blocks1 ++ blocks2) = openai_stream blocks1).
Proof.
  unfold main.openai_stream, mbind, M_bind, and_then.
  rewrite !on_blocks_events, events_app, on_events_app.
  destruct (props2.on_events _ _ _ (events blocks1) _)
    as [g1 [u|e]]; cbn [fst snd].
  - rewrite <- on_blocks_events.
    destruct (stream_facts.on_blocks_grows json_loads stream_id model
                created blocks2 g1) as (xs & Hxs).
    destruct (main.on_blocks _ _ _ _ blocks2 g1) as [g2 [u'|e]];
      cbn [fst snd yielded] in *.
    + exists (yielded g1), (xs ++ [DONE]). split_and!; [done| |done].
      simpl. by rewrite Hxs, app_assoc.
    + exists (yielded g1), xs. by split_and!.
  - exists (yielded g1), []. by rewrite !app_nil_r.
Qed.

(** X14.  Blocks that decode to nothing have no effect: two streams
    that decode to the same events give the same output. *)
Theorem stream_depends_on_events_only (blocks1 blocks2 : list string) :
  events blocks1 = events blocks2 →
  openai_stream blocks1 = openai_stream blocks2.
Proof.
  intros Hev. unfold main.openai_stream, mbind, M_bind, and_then.
  by rewrite !on_blocks_events, Hev.
Qed.
End stream.

Lemma block_is_read_back_witness :
  decode loads_example (block "message_stop" stop_json) = Some stop_event.
Proof.
  destruct (block_is_read_back loads_example "message_stop" stop_json)
    as [_ H].
  - apply (bool_decide_unpack _). by vm_compute.
  - apply (bool_decide_unpack _). by vm_compute.
  - by rewrite H.
Defined.

Lemma stream_stops_at_non_object_witness :
  openai_stream loads_with_list "chatcmpl-1" "claude-sonnet-4.5" 0
    [block "message_stop" stop_json; "data: [1]";
     block "message_stop" stop_json]
  = ([role_chunk "chatcmpl-1" "claude-sonnet-4.5" 0;
      finish_chunk "chatcmpl-1" "claude-sonnet-4.5" 0],
     Some AttributeError).
Proof.
  assert (Forall stream_event
            (events loads_with_list [block "message_stop" stop_json]))
    as H1 by (vm_compute; repeat constructor).
  assert (decode loads_with_list "data: [1]" = Some (JArr [JNum 1]))
    as H2 by (by vm_compute).
  assert (∀ members, JArr [JNum 1] ≠ JObj members) as H3 by done.
  exact (stream_stops_at_non_object loads_with_list "chatcmpl-1"
           "claude-sonnet-4.5" 0 [block "message_stop" stop_json]
           "data: [1]" [block "message_stop" stop_json] (JArr [JNum 1])
           H1 H2 H3).
Defined.

Lemma stream_stops_at_text_without_slice_witness :
  openai_stream loads_with_number "chatcmpl-1" "claude-sonnet-4.5" 0
    [block "content_block_delta" number_json;
     block "message_stop" stop_json]
  = ([role_chunk "chatcmpl-1" "claude-sonnet-4.5" 0], Some TypeError).
Proof.
  assert (decode loads_with_number
            (block "content_block_delta" number_json)
          = Some number_event) as Hb by (by vm_compute).
  exact (stream_stops_at_text_without_slice loads_with_number "chatcmpl-1"
           "claude-sonnet-4.5" 0 []
           (block "content_block_delta" number_json)
           [block "message_stop" stop_json]
           [("type", JStr "content_block_delta");
            ("delta", JObj [("text", JNum 5)])]
           [("text", JNum 5)] (JNum 5)
           (Forall_nil_2 _) Hb eq_refl eq_refl eq_refl eq_refl
           ltac:(done) ltac:(done)).
Defined.

Lemma stream_depends_on_events_only_witness :
  openai_stream loads_example "chatcmpl-1" "claude-sonnet-4.5" 0
    ["event: ping"; block "message_stop" stop_json; "data: not json"]
  = openai_stream loads_example "chatcmpl-1" "claude-sonnet-4.5" 0
      [block "message_stop" stop_json].
Proof.
  apply stream_depends_on_events_only. by vm_compute.
Defined.

End stream_more_facts.

(** ** More on the tool results *)

Module tool_result_more_facts.
Import py main props props2.

Implicit Types (r x : json) (rs : list json) (t : string).

Lemma get_has_id r :
  has_id r → get r "toolUseId" JNull = Ok (JStr (id_of r)).
Proof.
  destruct r as [| | | | |members]; try done. simpl.
  by destruct (lookup_key "toolUseId" members) as [[| | |t| |]|].
Qed.

Lemma tool_result_has_id r : tool_result r → has_id r.
Proof.
  destruct r as [| | | | |members]; try done. simpl.
  by destruct (lookup_key "toolUseId" members) as [[| | |t| |]|].
Qed.

Lemma merge_loop_distinct rest merged :
  Forall has_id rest → NoDup (id_of <$> rest) →
  (∀ t, t ∈ id_of <$> rest → t ∉ id_of <$> merged) →
  merge_loop rest merged (JStr <$> (id_of <$> merged))
  = Ok (merged ++ rest).
Proof.
  intros Hrest. revert merged.
  induction Hrest as [|x rest Hx Hrest IH]; intros merged Hnd Hdisj.
  - by rewrite app_nil_r.
  - apply NoDup_cons in Hnd as [Hnotin Hnd]. simpl.
    rewrite get_has_id by done. simpl.
    rewrite tool_result_facts.existsb_seen.
    rewrite bool_decide_eq_false_2 by (apply Hdisj; left).
    specialize (IH (merged ++ [x]) Hnd).
    rewrite !fmap_app, <- app_assoc in IH. apply IH.
    intros t Ht. rewrite elem_of_app. intros [Hin|Hin].
    + apply (Hdisj t); [by right|done].
    + apply list_elem_of_fmap in Hin as (y & -> & Hy).
      apply elem_of_cons in Hy as [->|?%elem_of_nil]; done.
Qed.

(** X15.  Records with distinct invocation ids come out of the merge
    as they went in, whatever else they hold. *)
Theorem distinct_ids_are_left_alone (tool_results : list json) :
  Forall has_id tool_results → NoDup (id_of <$> tool_results) →
  merge_tool_results tool_results = Ok tool_results.
Proof.
  intros Hrs Hnd. unfold merge_tool_results.
  case_bool_decide; [|done].
  apply (merge_loop_distinct tool_results []); [done|done|].
  intros t _ ?%elem_of_nil. done.
Qed.

Lemma distinct_ids_are_left_alone_witness :
  merge_tool_results [record "t1" [JStr "X"]; JObj [("toolUseId", JStr "t2")]]
  = Ok [record "t1" [JStr "X"]; JObj [("toolUseId", JStr "t2")]].
Proof.
  apply distinct_ids_are_left_alone.
  - repeat constructor.
  - apply (bool_decide_unpack _). by vm_compute.
Defined.

(** X16.  Merging is idempotent: the merge of tool-result records
    succeeds, and merging its result again gives the same result. *)
Theorem merge_is_idempotent (tool_results : list json) :
  Forall tool_result tool_results →
  ∃ merged, merge_tool_results tool_results = Ok merged
            ∧ merge_tool_results merged = Ok merged.
Proof.
  intros Hrs. exists (grouped tool_results). split.
  - unfold merge_tool_results. case_bool_decide.
    + by apply (tool_result_facts.merge_loop_grouped tool_results []).
    + by destruct tool_results.
  - apply distinct_ids_are_left_alone.
    + eapply Forall_impl; [by apply tool_result_facts.grouped_records|].
      apply tool_result_has_id.
    + rewrite tool_result_facts.grouped_ids.
      apply tool_result_facts.firsts_NoDup.
Qed.

Lemma merge_is_idempotent_witness :
  ∃ merged,
    merge_tool_results [record "t1" [JStr "X"]; record "t1" [JStr "Y"]]
    = Ok merged
    ∧ merge_tool_results merged = Ok merged.
Proof.
  apply merge_is_idempotent. repeat constructor.
Defined.

Lemma entries_extended l t (more : list json) :
  Forall tool_result l → NoDup (id_of <$> l) → t ∈ id_of <$> l →
  flat_map entries
    ((λ r, if decide (id_of r = t)
           then with_content (entries r ++ more) r else r) <$> l)
  ≡ₚ flat_map entries l ++ more.
Proof.
  induction 1 as [|r l Hr Hl IH]; intros Hnd Hin;
    [by apply elem_of_nil in Hin|].
  apply NoDup_cons in Hnd as [Hnotin Hnd].
  rewrite fmap_cons in Hin. apply elem_of_cons in Hin.
  rewrite fmap_cons. simpl.
  destruct (decide (id_of r = t)) as [E|Hne].
  - rewrite tool_result_facts.entries_with_content by done.
    assert ((λ r0, if decide (id_of r0 = t)
                   then with_content (entries r0 ++ more) r0 else r0)
              <$> l = l) as ->.
    { rewrite <- (list_fmap_id l) at 2. apply list_fmap_ext.
      intros i y Hy. rewrite decide_False; [done|].
      intros E'. apply Hnotin. rewrite E, <- E'.
      apply list_elem_of_fmap_2. by eapply list_elem_of_lookup_2. }
    rewrite <- !app_assoc. f_equiv. apply Permutation_app_comm.
  - destruct Hin as [?|Hin]; [congruence|].
    rewrite IH by done. by rewrite app_assoc.
Qed.

(** X17.  The merge neither loses nor repeats a content entry: the
    entries of the records that come out are, up to their order, the
    entries of the records that went in. *)
Theorem merge_keeps_all_entries (tool_results : list json) :
  Forall tool_result tool_results →
  ∃ merged, merge_tool_results tool_results = Ok merged
            ∧ flat_map entries merged ≡ₚ flat_map entries tool_results.
Proof.
  intros Hrs. exists (grouped tool_results). split.
  { unfold merge_tool_results. case_bool_decide.
    - by apply (tool_result_facts.merge_loop_grouped tool_results []).
    - by destruct tool_results. }
  induction tool_results as [|x rs IH] using rev_ind; [done|].
  apply Forall_app in Hrs as [Hrs Hx].
  rewrite Forall_singleton in Hx.
  specialize (IH Hrs). rewrite flat_map_app. simpl. rewrite app_nil_r.
  destruct (decide (id_of x ∈ id_of <$> rs)) as [Hin|Hnotin].
  - pose proof (tool_result_facts.grouped_snoc_seen rs x Hrs Hx Hin) as Hg.
    rewrite tool_result_facts.merge_into_records in Hg;
      [|done|by apply tool_result_facts.grouped_records
       |rewrite tool_result_facts.grouped_ids;
        apply tool_result_facts.firsts_NoDup].
    injection Hg as <-.
    rewrite entries_extended.
    + by rewrite IH.
    + by apply tool_result_facts.grouped_records.
    + rewrite tool_result_facts.grouped_ids.
      apply tool_result_facts.firsts_NoDup.
    + rewrite tool_result_facts.grouped_ids.
      by apply tool_result_facts.firsts_ids.
  - rewrite <- tool_result_facts.grouped_snoc_new by done.
    rewrite flat_map_app. simpl. rewrite app_nil_r. by rewrite IH.
Qed.

Lemma merge_keeps_all_entries_witness :
  ∃ merged,
    merge_tool_results
      [record "t1" [JStr "X"]; record "t2" [JStr "Z"]; record "t1" [JStr "Y"]]
    = Ok merged
    ∧ flat_map entries merged ≡ₚ [JStr "X"; JStr "Z"; JStr "Y"].
Proof.
  apply (merge_keeps_all_entries
           [record "t1" [JStr "X"]; record "t2" [JStr "Z"];
            record "t1" [JStr "Y"]]).
  repeat constructor.
Defined.

(** X18.  A record that repeats the id of the first record makes the
    merge raise when the first record has no list to extend: a
    [KeyError] when it has no [content], an [AttributeError] when its
    [content] is a string, a number, [null], a boolean or a dict;
    nothing of what follows is looked at. *)
Theorem repeated_id_needs_a_content_list
    (members members' : list (string * json)) (t : string)
    (rest : list json) :
  lookup_key "toolUseId" members = Some (JStr t) →
  lookup_key "toolUseId" members' = Some (JStr t) →
  (lookup_key "content" members = None →
   merge_tool_results (JObj members :: JObj members' :: rest)
   = Raise KeyError)
  ∧ (∀ v, lookup_key "content" members = Some v →
          (∀ items, v ≠ JArr items) →
          merge_tool_results (JObj members :: JObj members' :: rest)
          = Raise AttributeError).
Proof.
  intros Hid Hid'. unfold merge_tool_results.
  rewrite bool_decide_eq_true_2 by done. simpl.
  rewrite Hid, Hid'. simpl. rewrite String.eqb_refl. simpl. split.
  - by intros ->.
  - intros v -> Hv. destruct v as [| | | |items|]; try done.
    by destruct (Hv items).
Qed.

Lemma repeated_id_needs_a_content_list_witness :
  merge_tool_results
    [JObj [("toolUseId", JStr "t1")]; record "t1" [JStr "Y"]]
  = Raise KeyError
  ∧ merge_tool_results
      [JObj [("toolUseId", JStr "t1"); ("content", JStr "text")];
       record "t1" [JStr "Y"]]
    = Raise AttributeError.
Proof.
  split.
  - exact (proj1 (repeated_id_needs_a_content_list
                    [("toolUseId", JStr "t1")]
                    [("toolUseId", JStr "t1");
                     ("content", JArr [JStr "Y"]);
                     ("status", JStr "success")] "t1" [] eq_refl eq_refl)
             eq_refl).
  - refine (proj2 (repeated_id_needs_a_content_list
                     [("toolUseId", JStr "t1"); ("content", JStr "text")]
                     [("toolUseId", JStr "t1");
                      ("content", JArr [JStr "Y"]);
                      ("status", JStr "success")] "t1" [] eq_refl eq_refl)
              (JStr "text") eq_refl _).
    intros items. discriminate.
Defined.

End tool_result_more_facts.

(** ** Incoming requests *)

Module request_facts.
Import py main props props2 requests.

Lemma split_messages_snoc msgs msg :
  split_messages (msgs ++ [msg])
  = let '(claude_messages, system_message) := split_messages msgs in
    if String.eqb (role msg) "system"
    then (claude_messages, Some (content msg))
    else (claude_messages
            ++ [mkClaudeMessage (JStr (role msg)) (JStr (content msg))],
          system_message).
Proof.
  unfold split_messages. rewrite foldl_app. simpl.
  by destruct (foldl _ _ msgs).
Qed.

Lemma split_messages_spec msgs :
  split_messages msgs
  = ((λ m, mkClaudeMessage (JStr (role m)) (JStr (content m)))
       <$> filter (λ m, role m ≠ "system") msgs,
     content <$> last (filter (λ m, role m = "system") msgs)).
Proof.
  induction msgs as [|msg msgs IH] using rev_ind; [done|].
  rewrite split_messages_snoc, IH, !filter_app, !filter_cons, !filter_nil.
  destruct (String.eqb_spec (role msg) "system") as [E|Hne].
  - rewrite (decide_False (P := role msg ≠ "system")) by (by intros ?).
    rewrite (decide_True (P := role msg = "system")) by done.
    by rewrite app_nil_r, last_snoc.
  - rewrite (decide_True (P := role msg ≠ "system")) by done.
    rewrite (decide_False (P := role msg = "system")) by done.
    by rewrite app_nil_r, fmap_app.
Qed.

(** X19.  A chat-completions call is turned into a Claude request
    whose messages are the messages of the call that are not system
    messages, in their order, and whose system prompt is the content of
    the last system message of the call, or nothing if there is
    none. *)
Theorem system_messages_become_the_prompt (req : ChatCompletionRequest) :
  r_messages (to_claude_request req)
  = (λ m, mkClaudeMessage (JStr (role m)) (JStr (content m)))
      <$> filter (λ m, role m ≠ "system") (messages req)
  ∧ r_system (to_claude_request req)
    = match last (filter (λ m, role m = "system") (messages req)) with
      | Some m => JStr (content m)
      | None => JNull
      end
  ∧ Forall (λ m, m_role m ≠ JStr "system")
           (r_messages (to_claude_request req)).
Proof.
  unfold to_claude_request. rewrite split_messages_spec.
  cbn [r_messages r_system]. split_and!; [done| |].
  - by destruct (last _).
  - apply Forall_fmap, Forall_forall. intros m Hm.
    apply list_elem_of_filter in Hm as [Hm _]. simpl. congruence.
Qed.

(** X20.  The Claude request of a chat-completions call has the
    model of the call, or [claude-sonnet-4.5] when the call has none or
    an empty one; the number of tokens of the call, or 4096 when the
    call has none or 0; the temperature of the call; no tools; and it
    streams unless the call says [stream] false.  So it never has an
    empty model and never 0 as its number of tokens. *)
Theorem chat_request_defaults (req : ChatCompletionRequest) :
  let request := to_claude_request req in
  (∀ m, model req = Some m → m ≠ "" → r_model request = JStr m)
  ∧ (model req = None ∨ model req = Some "" →
     r_model request = JStr "claude-sonnet-4.5")
  ∧ (∀ n, max_tokens req = Some n → n ≠ 0%Z →
          r_max_tokens request = JNum n)
  ∧ (max_tokens req = None ∨ max_tokens req = Some 0%Z →
     r_max_tokens request = JNum 4096)
  ∧ r_temperature request = default_or (temperature req) JNull
  ∧ r_tools request = None
  ∧ r_stream request
    = JBool (if stream req is Some false then false else true)
  ∧ r_model request ≠ JStr ""
  ∧ r_max_tokens request ≠ JNum 0.
Proof.
  intros request. subst request. unfold to_claude_request.
  destruct (split_messages _) as [ms sys].
  cbn [r_model r_max_tokens r_stream r_temperature r_tools].
  split_and!.
  - intros m -> Hm. by destruct m.
  - by intros [->| ->].
  - intros n -> Hn. by rewrite (proj2 (Z.eqb_neq n 0) Hn).
  - by intros [->| ->].
  - done.
  - done.
  - by destruct (stream req) as [[]|].
  - destruct (model req) as [[|c m]|]; done.
  - destruct (max_tokens req) as [n|]; [|done].
    destruct (Z.eqb_spec n 0); [done|]. by intros [= ->].
Qed.

Lemma chat_request_defaults_witness :
  let kept := to_claude_request
                (mkChatCompletionRequest (Some "claude-opus-4")
                   [mkChatMessage "user" "hi"] (Some false) (Some 256%Z)
                   None) in
  let defaulted := to_claude_request
                     (mkChatCompletionRequest (Some "")
                        [mkChatMessage "user" "hi"] None (Some 0%Z)
                        None) in
  r_model kept = JStr "claude-opus-4"
  ∧ r_max_tokens kept = JNum 256
  ∧ r_model defaulted = JStr "claude-sonnet-4.5"
  ∧ r_max_tokens defaulted = JNum 4096.
Proof.
  intros kept defaulted.
  destruct (chat_request_defaults
              (mkChatCompletionRequest (Some "claude-opus-4")
                 [mkChatMessage "user" "hi"] (Some false) (Some 256%Z)
                 None)) as (Hm & _ & Hn & _).
  destruct (chat_request_defaults
              (mkChatCompletionRequest (Some "")
                 [mkChatMessage "user" "hi"] None (Some 0%Z) None))
    as (_ & Hm' & _ & Hn' & _).
  split_and!.
  - by apply Hm.
  - by apply Hn.
  - apply Hm'. by right.
  - apply Hn'. by right.
Defined.

Lemma for_each_messages (msgs : list json) :
  Forall (λ m, is_Some (message_of m)) msgs →
  for_each parse_message msgs = Ok (omap message_of msgs)
  ∧ length (omap message_of msgs) = length msgs.
Proof.
  induction 1 as [|m msgs [cm Hm] _ [IH IHlen]]; [done|].
  change (omap message_of (m :: msgs))
    with (match message_of m with
          | Some y => y :: omap message_of msgs
          | None => omap message_of msgs
          end).
  change (for_each parse_message (m :: msgs))
    with (bind (parse_message m)
            (λ y, bind (for_each parse_message msgs)
                    (λ ys, Ok (y :: ys)))).
  rewrite IH, Hm. cbn [length]. rewrite IHlen. split; [|done].
  unfold parse_message, subscript.
  destruct m as [| | | | |members]; try done. simpl in Hm.
  destruct (lookup_key "role" members) as [r|]; [|done].
  destruct (lookup_key "content" members) as [c|]; [|done].
  simpl. by injection Hm as <-.
Qed.

(** X21.  A Claude request body whose messages are dicts with a role
    and a content, and which has no tools, is parsed into a request
    with those messages, as many and in their order, and without
    tools; a body without [messages] gives no messages; and the keys
    [model], [max_tokens] and [stream], when absent, are read as
    [claude-sonnet-4.5], 4096 and true. *)
Theorem claude_request_is_parsed (members : list (string * json)) :
  let msgs := match lookup_key "messages" members with
              | Some (JArr msgs) => msgs
              | _ => []
              end in
  (lookup_key "messages" members = None
   ∨ ∃ msgs, lookup_key "messages" members = Some (JArr msgs)) →
  Forall (λ m, is_Some (message_of m)) msgs →
  lookup_key "tools" members = None →
  ∃ request,
    parse_claude_request (JObj members) = Ok request
    ∧ r_messages request = omap message_of msgs
    ∧ length (r_messages request) = length msgs
    ∧ r_tools request = None
    ∧ (lookup_key "model" members = None →
       r_model request = JStr "claude-sonnet-4.5")
    ∧ (lookup_key "max_tokens" members = None →
       r_max_tokens request = JNum 4096)
    ∧ (lookup_key "stream" members = None →
       r_stream request = JBool true).
Proof.
  intros msgs Hshape Hmsgs Htools.
  destruct (for_each_messages msgs Hmsgs) as [Hparse Hlen].
  assert (bind (get (JObj members) "messages" (JArr []))
            (λ listed, iterate listed) = Ok msgs) as Hlist.
  { subst msgs. unfold get.
    destruct Hshape as [->|(ms & ->)]; done. }
  unfold parse_claude_request.
  destruct (get (JObj members) "messages" (JArr [])) as [listed|e];
    [|done].
  change (iterate listed = Ok msgs) in Hlist.
  cbn [bind]. rewrite Hlist. cbn [bind]. rewrite Hparse. cbn [bind].
  rewrite Htools. unfold get. cbn [bind].
  eexists. split; [reflexivity|]. cbn [r_messages r_tools r_model
    r_max_tokens r_stream].
  split_and!; try done; by intros ->.
Qed.

Lemma claude_request_is_parsed_witness :
  ∃ request,
    parse_claude_request
      (JObj [("messages",
              JArr [JObj [("role", JStr "user"); ("content", JStr "hi")]])])
    = Ok request
    ∧ r_messages request = [mkClaudeMessage (JStr "user") (JStr "hi")]
    ∧ r_model request = JStr "claude-sonnet-4.5".
Proof.
  destruct (claude_request_is_parsed
              [("messages",
                JArr [JObj [("role", JStr "user");
                            ("content", JStr "hi")]])])
    as (request & Hr & Hm & _ & _ & Hmodel & _).
  - right. by eexists.
  - repeat constructor. by eexists.
  - reflexivity.
  - exists request. split_and!; [done|done|by apply Hmodel].
Defined.

(** X22.  A message that is a dict without a role, after messages
    that are complete, makes the parse of a Claude request raise
    [KeyError], whatever follows it in the body. *)
Theorem message_without_role_is_rejected
    (members bad : list (string * json)) (pre post : list json) :
  lookup_key "messages" members = Some (JArr (pre ++ JObj bad :: post)) →
  Forall (λ m, is_Some (message_of m)) pre →
  lookup_key "role" bad = None →
  parse_claude_request (JObj members) = Raise KeyError.
Proof.
  intros Hmsgs Hpre Hbad.
  assert (for_each parse_message (pre ++ JObj bad :: post)
          = Raise KeyError) as Hloop.
  { clear Hmsgs. induction Hpre as [|m pre [cm Hm] _ IH].
    - simpl. unfold parse_message, subscript at 1. by rewrite Hbad.
    - change (bind (parse_message m)
                (λ y, bind (for_each parse_message
                              (pre ++ JObj bad :: post))
                        (λ ys, Ok (y :: ys))) = Raise KeyError).
      rewrite IH.
      destruct m as [| | | | |mm]; try done. simpl in Hm.
      unfold parse_message, subscript.
      destruct (lookup_key "role" mm); [|done].
      by destruct (lookup_key "content" mm). }
  unfold parse_claude_request, get. rewrite Hmsgs.
  cbn [bind default_or iterate]. by rewrite Hloop.
Qed.

Lemma message_without_role_is_rejected_witness :
  parse_claude_request
    (JObj [("messages",
            JArr [JObj [("role", JStr "user"); ("content", JStr "hi")];
                  JObj [("content", JStr "no role")]])])
  = Raise KeyError.
Proof.
  apply (message_without_role_is_rejected _ [("content", JStr "no role")]
           [JObj [("role", JStr "user"); ("content", JStr "hi")]] []).
  - reflexivity.
  - repeat constructor. by eexists.
  - reflexivity.
Defined.

End request_facts.

(** ** The token of a request *)

Module auth_session_facts.
Import py auth props props2.

Section session.
Variable Config : Type.
Variable is_token_expired : Config → bool.
Variable access_token : Config → option string.
Variable refresh_token : M Config bool.

#[local] Abbreviation ensure_valid_token :=
  (auth_session.ensure_valid_token Config is_token_expired access_token
     refresh_token).
#[local] Abbreviation get_auth_headers :=
  (auth_session.get_auth_headers Config is_token_expired access_token
     refresh_token).

Lemma ensure_valid_token_cases (c : Config) :
  ensure_valid_token c
  = match (if is_token_expired c then refresh_token c
           else (c, Ok true)) with
    | (c', Ok _) =>
        (c', match access_token c' with
             | Some token => if str_truthy token then Ok token
                             else Raise TokenRefreshError
             | None => Raise TokenRefreshError
             end)
    | (c', Raise e) => (c', Raise e)
    end.
Proof.
  unfold auth_session.ensure_valid_token,
    auth_session.read_global_config.
  unfold mbind, M_bind, and_then, gets, mret, M_ret, ret, raise.
  destruct (is_token_expired c).
  - destruct (refresh_token c) as [c' [b|e]]; [|done].
    destruct (access_token c') as [token|]; [|done].
    by destruct (str_truthy token).
  - destruct (access_token c) as [token|]; [|done].
    by destruct (str_truthy token).
Qed.

(** X23.  The headers of a request to the backend are the one header
    [Authorization: Bearer <token>], where the token is not empty and
    is the access token of the configuration as the call leaves it.
    The token is renewed exactly when the configuration says it has
    expired, and once: an unexpired configuration is left as it is,
    an exception of the renewal is passed on, and a configuration
    that has no token, also after a renewal that succeeded, gives
    [TokenRefreshError]. *)
Theorem auth_headers_carry_a_checked_token (c : Config) :
  match get_auth_headers c with
  | (c', Ok headers) =>
      ∃ token,
        headers = [("Authorization", "Bearer " +:+ token)]
        ∧ token ≠ ""
        ∧ access_token c' = Some token
        ∧ if is_token_expired c
          then ∃ b, refresh_token c = (c', Ok b)
          else c' = c
  | (c', Raise e) =>
      if is_token_expired c
      then refresh_token c = (c', Raise e)
           ∨ (e = TokenRefreshError
              ∧ token_truthy (access_token c') = false
              ∧ ∃ b, refresh_token c = (c', Ok b))
      else c' = c ∧ e = TokenRefreshError
           ∧ token_truthy (access_token c) = false
  end.
Proof.
  unfold auth_session.get_auth_headers.
  unfold mbind, M_bind, and_then at 1.
  rewrite ensure_valid_token_cases.
  destruct (is_token_expired c).
  - destruct (refresh_token c) as [c' [b|e]]; [|by left].
    destruct (access_token c') as [token|] eqn:Htoken.
    + destruct token as [|a token].
      * right. unfold token_truthy. rewrite Htoken. eauto.
      * cbn. eexists. split_and!; [done|done|done|by eexists].
    + right. unfold token_truthy. rewrite Htoken. eauto.
  - destruct (access_token c) as [token|] eqn:Htoken.
    + destruct token as [|a token].
      * unfold token_truthy. by rewrite ?Htoken.
      * cbn. eexists. by split_and!.
    + unfold token_truthy. by rewrite ?Htoken.
Qed.
End session.

Section renewal.
Variable int_of_str : string → option Z.
Variables (config : Config) (send : Request → reply).

#[local] Abbreviation renew := (refresh_token_call int_of_str config send).

Lemma rotated_is_answered (members : list (string * json)) :
  let new_refresh_token :=
    default_or (lookup_key "refreshToken" members) JNull in
  match (if truthy new_refresh_token then Some new_refresh_token
         else None) with
  | Some rotated =>
      lookup_key "refreshToken" members = Some rotated
      ∧ truthy rotated = true
  | None => truthy new_refresh_token = false
  end.
Proof.
  destruct (lookup_key "refreshToken" members) as [r|];
    cbn [default_or truthy]; [|done].
  by destruct (truthy r) eqn:Hr.
Qed.

(** X24.  Whatever the token endpoint answers, a renewal either
    fails with [TokenRefreshError], and with no other exception, or
    hands to the configuration an access token that is not empty and
    that a response with a status in 200-299 and a JSON object as its
    body carries as [accessToken]; the rotated credential, if one is
    handed over, is the [refreshToken] of that body and not empty;
    and the lifetime is 3600 seconds or the integer of the
    [expiresIn] of that body. *)
Theorem renewal_hands_over_what_was_answered :
  match renew with
  | Raise e => e = TokenRefreshError
  | Ok update =>
      ∃ status_code members,
        send (build_request config)
        = Response status_code (Some (JObj members))
        ∧ (200 ≤ status_code ≤ 299)%Z
        ∧ lookup_key "accessToken" members = Some (access_token update)
        ∧ truthy (access_token update) = true
        ∧ match new_refresh_token update with
          | Some rotated =>
              lookup_key "refreshToken" members = Some rotated
              ∧ truthy rotated = true
          | None =>
              truthy (default_or (lookup_key "refreshToken" members)
                        JNull) = false
          end
        ∧ match lookup_key "expiresIn" members with
          | Some v =>
              if truthy v
              then int int_of_str v = Ok (expires_in update)
              else expires_in update = 3600%Z
          | None => expires_in update = 3600%Z
          end
  end.
Proof.
  unfold refresh_token_call.
  destruct (send (build_request config)) as [|status_code body];
    [done|].
  cbn [parse_reply]. unfold raise_for_status.
  case_bool_decide as Hst; [|done]. cbn [bind].
  destruct body as [[| | | | |members]|]; try done.
  unfold get. cbn [bind].
  destruct (lookup_key "accessToken" members) as [token|] eqn:Htoken;
    [|done]. cbn [default_or].
  destruct (truthy token) eqn:Htruthy; [|done]. cbn [negb].
  destruct (lookup_key "expiresIn" members) as [v|] eqn:Hv;
    cbn [default_or].
  - destruct (truthy v) eqn:Hvt.
    + destruct (int int_of_str v) as [n|e] eqn:Hint; [|done].
      cbn [bind]. exists status_code, members.
      cbn [access_token new_refresh_token expires_in].
      do 4 (split; [done|]). split; [apply rotated_is_answered|].
      by rewrite Hv, Hvt.
    + cbn [bind]. exists status_code, members.
      cbn [access_token new_refresh_token expires_in].
      do 4 (split; [done|]). split; [apply rotated_is_answered|].
      by rewrite Hv, Hvt.
  - cbn [truthy bind]. exists status_code, members.
    cbn [access_token new_refresh_token expires_in].
    do 4 (split; [done|]). split; [apply rotated_is_answered|].
    by rewrite Hv.
Qed.

(** X25.  When a response with a status in 200-299 carries an access
    token and an [expiresIn], the lifetime decides the renewal: an
    [expiresIn] that is 0, empty, false or null gives the lifetime
    3600; one that [int] accepts gives that integer; and one that
    [int] rejects, such as a string that is no number, makes the
    renewal fail with [TokenRefreshError] although the response
    carries the token. *)
Theorem lifetime_decides_the_renewal
    (status_code : Z) (members : list (string * json)) (token v : json) :
  send (build_request config)
  = Response status_code (Some (JObj members)) →
  (200 ≤ status_code ≤ 299)%Z →
  lookup_key "accessToken" members = Some token →
  truthy token = true →
  lookup_key "expiresIn" members = Some v →
  match (if truthy v then int int_of_str v else Ok 3600%Z) with
  | Ok n => ∃ update, renew = Ok update
                      ∧ access_token update = token
                      ∧ expires_in update = n
  | Raise _ => renew = Raise TokenRefreshError
  end.
Proof.
  intros Hsend Hst Htoken Htruthy Hv.
  unfold refresh_token_call. rewrite Hsend.
  cbn [parse_reply]. unfold raise_for_status.
  rewrite bool_decide_eq_true_2 by done. unfold get. cbn [bind].
  rewrite Htoken, Hv. cbn [default_or]. rewrite Htruthy. cbn [negb].
  destruct (if truthy v then int int_of_str v else Ok 3600%Z)
    as [n|e]; [|done].
  cbn [bind]. by eexists.
Qed.
End renewal.

Lemma lifetime_decides_the_renewal_witness :
  refresh_token_call (λ _, None)
    (mkConfig "credential" "client" "secret" "https://oidc.example/token")
    (λ _, Response 200
            (Some (JObj [("accessToken", JStr "token");
                         ("expiresIn", JStr "soon")])))
  = Raise TokenRefreshError
  ∧ ∃ update,
      refresh_token_call (λ _, None)
        (mkConfig "credential" "client" "secret"
           "https://oidc.example/token")
        (λ _, Response 200
                (Some (JObj [("accessToken", JStr "token");
                             ("expiresIn", JNum 0)])))
      = Ok update
      ∧ access_token update = JStr "token"
      ∧ expires_in update = 3600%Z.
Proof.
  split.
  - exact (lifetime_decides_the_renewal (λ _, None)
             (mkConfig "credential" "client" "secret"
                "https://oidc.example/token")
             (λ _, Response 200
                     (Some (JObj [("accessToken", JStr "token");
                                  ("expiresIn", JStr "soon")])))
             200 _ (JStr "token") (JStr "soon")
             eq_refl ltac:(lia) eq_refl eq_refl eq_refl).
  - exact (lifetime_decides_the_renewal (λ _, None)
             (mkConfig "credential" "client" "secret"
                "https://oidc.example/token")
             (λ _, Response 200
                     (Some (JObj [("accessToken", JStr "token");
                                  ("expiresIn", JNum 0)])))
             200 _ (JStr "token") (JNum 0)
             eq_refl ltac:(lia) eq_refl eq_refl eq_refl).
Defined.

End auth_session_facts.
